(** * step2_build_index.py: the image-feature index builder

    A shallow embedding of [process_batch], [build_index_fast] and the
    [__main__] guard of [src/step2_build_index.py], together with the parts
    of the Python runtime the script leans on: slicing and [range] for the
    chunking, [sorted], [np.concatenate] along axis 0, and the reordering
    buffer behind [multiprocessing.Pool.imap]. *)

From stdpp Require Import gmap strings list sorting pretty.

(** ** Python results: a value or a raised exception *)

(** The script only ever tells [KeyboardInterrupt] apart from the rest: the
    handler around [build_index_fast()] catches it alone, the bare
    [except:] of [process_batch] catches everything. [Exception] stands for
    any exception below Python's [Exception] class. Exceptions come from
    the calls the script makes; signals that arrive between two statements
    are outside this model. *)
Inductive exn := KeyboardInterrupt | Exception.

Inductive result (A : Type) :=
  | Ok (a : A)
  | Raise (e : exn).
Arguments Ok {A} a.
Arguments Raise {A} e.

Global Instance exn_eq_dec : EqDecision exn.
Proof. solve_decision. Defined.

(** ** Slices, ranges and sorting *)

(** [l[i:j]] for [0 <= i <= j]: Python clips both ends to the list. *)
Definition py_slice {A} (l : list A) (i j : nat) : list A :=
  take (j - i) (drop i l).

(** [range(start, stop, step)] for a positive [step]; CPython computes the
    length as [(stop - start + step - 1) // step] and the k-th item as
    [start + k * step]. *)
Definition py_range (start stop step : nat) : list nat :=
  (λ k, start + k * step) <$> seq 0 ((stop - start + step - 1) `div` step).

(** [sorted(l)] on strings. [str] comparison is lexicographic on code
    points; on UTF-8 bytes that is the byte-wise lexicographic order
    [String.le]. The order is total and antisymmetric, so the sorted
    arrangement of a list is unique and any sorting algorithm computes what
    Python's does. *)
Definition sorted (l : list string) : list string := merge_sort String.le l.

(** [os.path.join(a, b)] for a relative [b] and a non-empty [a] that does
    not end in a separator. *)
Definition os_path_join (a b : string) : string := a +:+ "/" +:+ b.

(** ** multiprocessing.Pool.imap

    [IMapIterator] keeps the results that arrive out of turn in the dict
    [_unsorted] and releases them to the deque [_items] in submission
    order; [_index] is the number of the next result to release. *)
Section imap.
Context {R : Type}.

Record imap_iterator := ImapIterator {
  it_items : list R;
  it_index : nat;
  it_unsorted : gmap nat R
}.

Definition imap_init : imap_iterator := ImapIterator [] 0 ∅.

(** [while self._index in self._unsorted: ...]; every turn pops one key,
    so [size _unsorted] turns are enough. *)
Fixpoint imap_drain (fuel : nat) (it : imap_iterator) : imap_iterator :=
  match fuel with
  | 0 => it
  | S fuel' =>
      match it_unsorted it !! it_index it with
      | Some obj =>
          imap_drain fuel'
            (ImapIterator (it_items it ++ [obj]) (S (it_index it))
                          (delete (it_index it) (it_unsorted it)))
      | None => it
      end
  end.

(** [IMapIterator._set(i, obj)], called when task [i] completes. *)
Definition imap_set (it : imap_iterator) (task : nat * R) : imap_iterator :=
  let '(i, obj) := task in
  if decide (it_index it = i) then
    imap_drain (size (it_unsorted it))
      (ImapIterator (it_items it ++ [obj]) (S (it_index it)) (it_unsorted it))
  else
    ImapIterator (it_items it) (it_index it) (<[i:=obj]> (it_unsorted it)).
End imap.
Arguments imap_iterator R : clear implicits.

(** The order in which the submitted tasks complete is chosen by the
    operating system. [choices] drives it: at every step the task at
    position [choice mod (number of pending tasks)] of the pending list
    completes next, so every list of numbers is a schedule and every
    completion order is the image of one. *)
Fixpoint completion_order {T} (fuel : nat) (choices : list nat)
    (pending : list T) : list T :=
  match fuel with
  | 0 => []
  | S fuel' =>
      let k := hd 0 choices `mod` length pending in
      match pending !! k with
      | Some t => t :: completion_order fuel' (tl choices) (delete k pending)
      | None => []
      end
  end.

(** [pool.imap(f, tasks)]: the tasks are numbered in submission order, run
    in the workers, and handed to [_set] as they complete; the consumer
    reads [_items] from the left. *)
Definition pool_imap {T R} (choices : list nat) (f : T → R)
    (tasks : list T) : list R :=
  let numbered := zip (seq 0 (length tasks)) tasks in
  let completed := completion_order (length numbered) choices numbered in
  it_items (foldl imap_set imap_init (prod_map id f <$> completed)).

(** The state of the iterator between two calls of [_set], relative to the
    list [results] of what the tasks compute. *)
Section imap_invariant.
Context {R : Type} (results : list R).
Implicit Types (it : imap_iterator R) (done : list nat).

(** What the iterator looks like once the tasks in [done] have completed:
    the released items are a prefix of the results, and the buffer holds
    exactly the completed results that are not yet released. *)
Record imap_inv done it : Prop := ImapInv {
  inv_items : it_items it = take (it_index it) results;
  inv_below : ∀ i, i < it_index it → i ∈ done;
  inv_unsorted : ∀ i,
    it_unsorted it !! i
    = if decide (i ∈ done ∧ it_index it ≤ i) then results !! i else None;
  inv_bound : ∀ i, i ∈ done → i < length results
}.

(** Between two calls of [_set] the next result to release is missing. *)
Definition imap_waiting it : Prop := it_unsorted it !! it_index it = None.

End imap_invariant.

(** ** numpy arrays *)
Section numpy.
Variable scalar : Type.

(** An n-dimensional array in C order: [data] holds [product shape]
    scalars, the first axis varying slowest. *)
Record ndarray := NdArray { shape : list nat; data : list scalar }.

Definition ndarray_wf (a : ndarray) : Prop :=
  length (data a) = foldr Nat.mul 1 (shape a).

(** [len(a)]: the extent of the first axis (the row count). *)
Definition nrows (a : ndarray) : nat := hd 0 (shape a).

(** Number of scalars in one row. *)
Definition row_size (a : ndarray) : nat := foldr Nat.mul 1 (tail (shape a)).

(** [a[i]], flattened. *)
Definition row (a : ndarray) (i : nat) : list scalar :=
  take (row_size a) (drop (i * row_size a) (data a)).

Definition rows (a : ndarray) : list (list scalar) :=
  row a <$> seq 0 (nrows a).

(** [np.concatenate(arrays, axis=0)]: [ValueError] on an empty sequence,
    on a zero-dimensional array, and when the arrays disagree on any
    axis but the first. *)
Definition np_concatenate (arrays : list ndarray) : result ndarray :=
  match arrays with
  | [] => Raise Exception
  | a :: _ =>
      match shape a with
      | [] => Raise Exception
      | _ :: inner =>
          if forallb (λ b, bool_decide (tail (shape b) = inner ∧ shape b ≠ []))
                     arrays
          then Ok (NdArray (sum_list (nrows <$> arrays) :: inner)
                           (mjoin (data <$> arrays)))
          else Raise Exception
      end
  end.

(** What [np.save] writes: the feature matrix, or the 1-D array of
    strings that [np.array(valid_paths)] builds. *)
Inductive npy :=
  | NpyNumeric (a : ndarray)
  | NpyStrings (a : list string).
End numpy.
Arguments NdArray {scalar} _ _.
Arguments shape {scalar} _.
Arguments data {scalar} _.
Arguments ndarray_wf {scalar} _.
Arguments nrows {scalar} _.
Arguments row_size {scalar} _.
Arguments row {scalar} _ _.
Arguments rows {scalar} _.
Arguments np_concatenate {scalar} _.
Arguments NpyNumeric {scalar} _.
Arguments NpyStrings {scalar} _.

(** An array of shape [(1, D)] holding its [D] scalars. *)
Definition one_row {scalar} (D : nat) (a : ndarray scalar) : Prop :=
  shape a = [1; D] ∧ length (data a) = D.

(** ** The script *)

(** Console lines, one constructor per [print] of the script. *)
Inductive message :=
  | MsgRule (c : string) (n : nat)          (* print("=" * 50), print("-" * 30) *)
  | MsgGalleryFound                          (* line 57 *)
  | MsgFullMode                              (* line 58 *)
  | MsgFullHint                              (* line 59 *)
  | MsgDemoFound                             (* line 64 *)
  | MsgDemoMode                              (* line 65 *)
  | MsgDemoHint                              (* line 66 *)
  | MsgNoSourceFolder                        (* line 69 *)
  | MsgNoSourceAdvice                        (* line 70 *)
  | MsgScanning (target_folder : string)     (* line 74 *)
  | MsgNoImages (target_folder : string)     (* line 80 *)
  | MsgFound (total_imgs : nat)              (* line 83 *)
  | MsgPoolStarted (num_processes : nat)     (* line 95 *)
  | MsgSaving                                (* line 106 *)
  | MsgIndexBuilt                            (* line 116 *)
  | MsgSource (target_folder : string)       (* line 117 *)
  | MsgProcessed (done total_imgs : nat)     (* line 118 *)
  | MsgShape (shape : list nat)              (* line 119 *)
  | MsgFailure                               (* line 122 *)
  | MsgInterrupted.                          (* line 130 *)

Global Instance message_eq_dec : EqDecision message.
Proof. solve_decision. Defined.

Section script.
Variables scalar tensor weights : Type.

(** The model object: calling it on an input tensor gives a feature
    array or raises. *)
Definition model : Type := tensor → result (ndarray scalar).

(** Everything the script reads from outside: the file system as it is
    during the run and the three imported collaborators ([np.load],
    [Dinov2Numpy], [resize_short_side]), which are not part of this file.
    The workers and the main process see the same environment.
    [np_load] and [Dinov2Numpy] give [None] when the call raises (a corrupt
    archive, a missing parameter: some [Exception]); [os.path.exists] and
    [glob] do not raise. *)
Record environment := Environment {
  os_path_exists : string → bool;
  os_path_getsize : string → result Z;
  glob : string → list string;
  np_load : string → option weights;
  Dinov2Numpy : weights → option model;
  resize_short_side : string → result tensor
}.

(** What the main process does to the outside world. [PoolImap] records
    the call [pool.imap(process_batch, chunks)] on a pool of [processes]
    workers; [NpSave] is a call of [np.save], taken to succeed. The
    progress bar of [tqdm] goes to the terminal only and is left out. *)
Inductive event :=
  | Print (m : message)
  | PoolImap (processes : nat) (chunks : list (list string))
  | NpSave (file : string) (contents : npy scalar).

(** A computation of the main process: the events it performed, then its
    value or the exception that ended it. *)
Definition M (A : Type) : Type := list event * result A.

Global Instance M_ret : MRet M := λ A a, ([], Ok a).
Global Instance M_bind : MBind M := λ A B k m,
  match m with
  | (tr, Ok a) => let '(tr', r) := k a in (tr ++ tr', r)
  | (tr, Raise e) => (tr, Raise e)
  end.
Definition emit (e : event) : M unit := ([e], Ok tt).
Definition print (m : message) : M unit := emit (Print m).
Definition np_save (file : string) (contents : npy scalar) : M unit :=
  emit (NpSave file contents).
Definition lift {A} (r : result A) : M A := ([], r).

Definition weight_file : string := "vit-dinov2-base.npz".
Definition features_file : string := "index_features.npy".
Definition paths_file : string := "index_paths.npy".

Variable env : environment.

(** *** process_batch *)

(** The body of the [try] up to the inference (lines 27-35): [Ok None] is
    the [continue] of the size check. *)
Definition image_feature (vit : model) (path : string)
    : result (option (ndarray scalar)) :=
  match os_path_getsize env path with
  | Raise e => Raise e
  | Ok size =>
      if (size <? 1024)%Z then Ok None
      else
        match resize_short_side env path with
        | Raise e => Raise e
        | Ok input_tensor =>
            match vit input_tensor with
            | Raise e => Raise e
            | Ok feature => Ok (Some feature)
            end
        end
  end.

(** One turn of the [for] loop on the pair
    [(batch_features, batch_paths)]: the two [append]s of lines 38-39, or
    the [continue] of the size check or of the bare [except:]. *)
Definition process_image (vit : model)
    (acc : list (ndarray scalar) * list string) (path : string)
    : list (ndarray scalar) * list string :=
  match image_feature vit path with
  | Ok (Some feature) => (acc.1 ++ [feature], acc.2 ++ [path])
  | Ok None => acc
  | Raise _ => acc
  end.

Definition process_batch (image_paths : list string)
    : result (list (ndarray scalar) * list string) :=
  if negb (os_path_exists env weight_file) then Ok ([], [])
  else
    match np_load env weight_file with
    | None => Raise Exception
    | Some w =>
        match Dinov2Numpy env w with
        | None => Raise Exception
        | Some vit => Ok (foldl (process_image vit) ([], []) image_paths)
        end
    end.

(** *** build_index_fast *)

(** Line 88: [[all_paths[i:i + batch_size] for i in range(0, total_imgs, batch_size)]]. *)
Definition make_chunks {A} (all_paths : list A) (batch_size : nat)
    : list (list A) :=
  (λ i, py_slice all_paths i (i + batch_size))
    <$> py_range 0 (length all_paths) batch_size.

(** Lines 100-103: the loop over the results that [imap] yields. A
    result that carries an exception re-raises it in the main process. *)
Fixpoint collect
    (yielded : list (result (list (ndarray scalar) * list string)))
    (acc : list (ndarray scalar) * list string)
    : result (list (ndarray scalar) * list string) :=
  match yielded with
  | [] => Ok acc
  | Raise e :: _ => Raise e
  | Ok (features, paths) :: rest =>
      collect rest
        (if bool_decide (0 < length features)
         then (acc.1 ++ features, acc.2 ++ paths)
         else acc)
  end.

(** Line 76. *)
Definition discover (target_folder : string) : list string :=
  sorted (glob env (os_path_join target_folder "*.jpg")
          ++ glob env (os_path_join target_folder "*.png")).

(** Lines 73-122: the rest of [build_index_fast] once [target_folder] is
    assigned. [choices] is the schedule of the pool. *)
Definition index_folder (choices : list nat) (target_folder : string)
    : M unit :=
  print (MsgScanning target_folder);;
  let all_paths := discover target_folder in
  let total_imgs := length all_paths in
  if bool_decide (total_imgs = 0) then
    print (MsgNoImages target_folder)
  else
    print (MsgFound total_imgs);;
    let batch_size := 100 in
    let chunks := make_chunks all_paths batch_size in
    let num_processes := 4 in
    print (MsgPoolStarted num_processes);;
    emit (PoolImap num_processes chunks);;
    '(all_features, valid_paths) ←
      lift (collect (pool_imap choices process_batch chunks) ([], []));
    print MsgSaving;;
    if bool_decide (0 < length all_features) then
      final_features ← lift (np_concatenate all_features);
      let final_paths := valid_paths in
      np_save features_file (NpyNumeric final_features);;
      np_save paths_file (NpyStrings final_paths);;
      print (MsgRule "-" 30);;
      print MsgIndexBuilt;;
      print (MsgSource target_folder);;
      print (MsgProcessed (length final_paths) total_imgs);;
      print (MsgShape (shape final_features));;
      print (MsgRule "-" 30)
    else
      print MsgFailure.

(** Lines 52-71 pick [target_folder]; the [else] branch returns. *)
Definition build_index_fast (choices : list nat) : M unit :=
  if os_path_exists env "gallery" then
    print (MsgRule "=" 50);;
    print MsgGalleryFound;;
    print MsgFullMode;;
    print MsgFullHint;;
    print (MsgRule "=" 50);;
    index_folder choices "gallery"
  else if os_path_exists env "demo_data" then
    print (MsgRule "=" 50);;
    print MsgDemoFound;;
    print MsgDemoMode;;
    print MsgDemoHint;;
    print (MsgRule "=" 50);;
    index_folder choices "demo_data"
  else
    print MsgNoSourceFolder;;
    print MsgNoSourceAdvice.

(** Lines 124-130: the top-level invocation. *)
Definition main (choices : list nat) : M unit :=
  match build_index_fast choices with
  | (tr, Raise KeyboardInterrupt) => (tr ++ [Print MsgInterrupted], Ok tt)
  | (tr, r) => (tr, r)
  end.

(** The [.npy] files on disk after the events of a run. *)
Definition files_after (tr : list event) (files : gmap string (npy scalar))
    : gmap string (npy scalar) :=
  foldl (λ fs e, match e with
                 | NpSave file contents => <[file:=contents]> fs
                 | _ => fs
                 end) files tr.

Definition is_save (e : event) : bool :=
  match e with NpSave _ _ => true | _ => false end.
Definition is_dispatch (e : event) : bool :=
  match e with PoolImap _ _ => true | _ => false end.
End script.

Arguments Print {scalar} m.
Arguments PoolImap {scalar} processes chunks.
Arguments NpSave {scalar} file contents.
Arguments os_path_exists {scalar tensor weights} e _.
Arguments os_path_getsize {scalar tensor weights} e _.
Arguments glob {scalar tensor weights} e _.
Arguments np_load {scalar tensor weights} e _.
Arguments Dinov2Numpy {scalar tensor weights} e _.
Arguments resize_short_side {scalar tensor weights} e _.
Arguments image_feature {scalar tensor weights} env vit path.
Arguments process_image {scalar tensor weights} env vit acc path.
Arguments process_batch {scalar tensor weights} env image_paths.
Arguments collect {scalar} yielded acc.
Arguments emit {scalar} e.
Arguments print {scalar} m.
Arguments np_save {scalar} file contents.
Arguments lift {scalar A} r.
Arguments discover {scalar tensor weights} env target_folder.
Arguments index_folder {scalar tensor weights} env choices target_folder.
Arguments build_index_fast {scalar tensor weights} env choices.
Arguments main {scalar tensor weights} env choices.
Arguments files_after {scalar} tr files.
Arguments is_save {scalar} e.
Arguments is_dispatch {scalar} e.

(** ** Reading a run's events *)
Section observers.
Context {scalar : Type}.
Implicit Types (tr : list (event scalar)).

(** The [np.save] calls of a run, in order. *)
Definition saved tr : list (string * npy scalar) :=
  omap (λ e, match e with NpSave file a => Some (file, a) | _ => None end) tr.

(** The [pool.imap] calls of a run: pool size and chunk list. *)
Definition dispatched tr : list (nat * list (list string)) :=
  omap (λ e, match e with PoolImap n chunks => Some (n, chunks) | _ => None end) tr.

(** The console lines of a run. *)
Definition printed tr : list message :=
  omap (λ e, match e with Print m => Some m | _ => None end) tr.

(** The folders a run announced it was scanning (line 74). *)
Definition scanned tr : list string :=
  omap (λ m, match m with MsgScanning folder => Some folder | _ => None end)
       (printed tr).

(** The (feature row, path) pairs of the index a run wrote. *)
Definition index_pairs tr : list (list scalar * string) :=
  match saved tr with
  | [(_, NpyNumeric final_features); (_, NpyStrings final_paths)] =>
      zip (rows final_features) final_paths
  | _ => []
  end.
End observers.

(** ** Derived notions used in the statements *)
Section derived.
Context {scalar tensor weights : Type}.
Variable env : environment scalar tensor weights.

(** The model a worker ends up with at the top of [process_batch]
    (lines 16-20): none when the weight archive is absent, an exception
    when loading fails. *)
Definition worker_model : result (option (model scalar tensor)) :=
  if negb (os_path_exists env weight_file) then Ok None
  else
    match np_load env weight_file with
    | None => Raise Exception
    | Some w =>
        match Dinov2Numpy env w with
        | None => Raise Exception
        | Some vit => Ok (Some vit)
        end
    end.

(** The feature an image contributes, if it survives the size check, the
    preprocessing and the inference. *)
Definition feature_of (vit : model scalar tensor) (path : string)
    : option (ndarray scalar) :=
  match image_feature env vit path with
  | Ok (Some feature) => Some feature
  | _ => None
  end.

Definition indexed (vit : model scalar tensor) (path : string) : Prop :=
  is_Some (feature_of vit path).

Global Instance indexed_dec vit path : Decision (indexed vit path).
Proof. unfold indexed. apply _. Defined.

(** Modelled from the spec: the embedding model ([dinov2_numpy]) is not
    part of the source given here. The spec has it map one image to one
    feature vector of the embedding dimension [D], and has the features
    stacked along the row axis into an N x D matrix; the array handed to
    [np.concatenate] is then one row, of shape [(1, D)]. *)
Definition model_contract (D : nat) : Prop :=
  ∀ vit input_tensor feature,
    worker_model = Ok (Some vit) →
    vit input_tensor = Ok feature →
    one_row D feature.

(** The value of [target_folder] after lines 52-71, if the run goes on. *)
Definition selected_folder : option string :=
  if os_path_exists env "gallery" then Some "gallery"
  else if os_path_exists env "demo_data" then Some "demo_data"
  else None.

(** The lines printed when the folder is chosen (56-60 or 63-67). *)
Definition banner (target_folder : string) : list (event scalar) :=
  if bool_decide (target_folder = "gallery") then
    [Print (MsgRule "=" 50); Print MsgGalleryFound; Print MsgFullMode;
     Print MsgFullHint; Print (MsgRule "=" 50)]
  else
    [Print (MsgRule "=" 50); Print MsgDemoFound; Print MsgDemoMode;
     Print MsgDemoHint; Print (MsgRule "=" 50)].

(** The events of [index_folder] up to the dispatch. *)
Definition dispatch_events (target_folder : string) : list (event scalar) :=
  let all_paths := discover env target_folder in
  [Print (MsgScanning target_folder);
   Print (MsgFound (length all_paths));
   Print (MsgPoolStarted 4);
   PoolImap 4 (make_chunks all_paths 100)].

(** The events of [index_folder] after a successful [np.concatenate]. *)
Definition success_events (target_folder : string)
    (final_features : ndarray scalar) (final_paths : list string)
    : list (event scalar) :=
  [Print MsgSaving;
   NpSave features_file (NpyNumeric final_features);
   NpSave paths_file (NpyStrings final_paths);
   Print (MsgRule "-" 30);
   Print MsgIndexBuilt;
   Print (MsgSource target_folder);
   Print (MsgProcessed (length final_paths)
                       (length (discover env target_folder)));
   Print (MsgShape (shape final_features));
   Print (MsgRule "-" 30)].

(** [index_folder] with the pool replaced by a sequential pass over the
    discovered paths: what the proofs below show every schedule to
    compute. *)
Definition index_folder_sequential (target_folder : string) : M scalar unit :=
  let all_paths := discover env target_folder in
  match all_paths with
  | [] => ([Print (MsgScanning target_folder);
            Print (MsgNoImages target_folder)], Ok tt)
  | _ :: _ =>
      match worker_model with
      | Raise e => (dispatch_events target_folder, Raise e)
      | Ok None =>
          (dispatch_events target_folder ++ [Print MsgSaving; Print MsgFailure],
           Ok tt)
      | Ok (Some vit) =>
          match omap (feature_of vit) all_paths with
          | [] =>
              (dispatch_events target_folder
               ++ [Print MsgSaving; Print MsgFailure], Ok tt)
          | all_features =>
              match np_concatenate all_features with
              | Raise e =>
                  (dispatch_events target_folder ++ [Print MsgSaving], Raise e)
              | Ok final_features =>
                  (dispatch_events target_folder
                   ++ success_events target_folder final_features
                        (filter (indexed vit) all_paths), Ok tt)
              end
          end
      end
  end.

(** The six ways a top-level invocation can go. *)
Inductive run_spec : M scalar unit → Prop :=
  | run_no_source :
      selected_folder = None →
      run_spec ([Print MsgNoSourceFolder; Print MsgNoSourceAdvice], Ok tt)
  | run_no_images target_folder :
      selected_folder = Some target_folder →
      discover env target_folder = [] →
      run_spec (banner target_folder
                ++ [Print (MsgScanning target_folder);
                    Print (MsgNoImages target_folder)], Ok tt)
  | run_worker_raised target_folder e :
      selected_folder = Some target_folder →
      discover env target_folder ≠ [] →
      worker_model = Raise e →
      run_spec (banner target_folder ++ dispatch_events target_folder,
                Raise Exception)
  | run_nothing_indexed target_folder worker :
      selected_folder = Some target_folder →
      discover env target_folder ≠ [] →
      worker_model = Ok worker →
      (∀ vit, worker = Some vit →
              omap (feature_of vit) (discover env target_folder) = []) →
      run_spec (banner target_folder ++ dispatch_events target_folder
                ++ [Print MsgSaving; Print MsgFailure], Ok tt)
  | run_concatenate_raised target_folder vit e :
      selected_folder = Some target_folder →
      worker_model = Ok (Some vit) →
      omap (feature_of vit) (discover env target_folder) ≠ [] →
      np_concatenate (omap (feature_of vit) (discover env target_folder))
        = Raise e →
      run_spec (banner target_folder ++ dispatch_events target_folder
                ++ [Print MsgSaving], Raise Exception)
  | run_index_written target_folder vit final_features :
      selected_folder = Some target_folder →
      worker_model = Ok (Some vit) →
      omap (feature_of vit) (discover env target_folder) ≠ [] →
      np_concatenate (omap (feature_of vit) (discover env target_folder))
        = Ok final_features →
      run_spec (banner target_folder ++ dispatch_events target_folder
                ++ success_events target_folder final_features
                     (filter (indexed vit) (discover env target_folder)),
                Ok tt).
End derived.

(** ** Two installations to run the script on *)

(** A stand-in for the embedding model: one row of two numbers per image. *)
Definition demo_vit : model Z string :=
  λ input_tensor, Ok (NdArray [1; 2] [Z.of_nat (String.length input_tensor); 7%Z]).

(** A demo folder with a valid 50 KB image, a 500-byte stub, an image the
    preprocessing chokes on, a file that vanished after the scan, and an
    image of exactly 1024 bytes; no [gallery]. *)
Definition demo_env : environment Z string unit := {|
  os_path_exists p := bool_decide (p = "demo_data" ∨ p = "vit-dinov2-base.npz");
  os_path_getsize p :=
    if bool_decide (p = "demo_data/cat.jpg") then Ok 51200%Z
    else if bool_decide (p = "demo_data/stub.jpg") then Ok 500%Z
    else if bool_decide (p = "demo_data/broken.png") then Ok 2048%Z
    else if bool_decide (p = "demo_data/kb.png") then Ok 1024%Z
    else Raise Exception;
  glob pattern :=
    if bool_decide (pattern = "demo_data/*.jpg")
    then ["demo_data/stub.jpg"; "demo_data/cat.jpg"]
    else if bool_decide (pattern = "demo_data/*.png")
    then ["demo_data/vanished.png"; "demo_data/kb.png"; "demo_data/broken.png"]
    else [];
  np_load _ := Some tt;
  Dinov2Numpy _ := Some demo_vit;
  resize_short_side p :=
    if bool_decide (p = "demo_data/broken.png") then Raise KeyboardInterrupt
    else Ok p
|}.

(** The same machine without the weight archive. *)
Definition no_weights_env : environment Z string unit := {|
  os_path_exists p := bool_decide (p = "demo_data");
  os_path_getsize := os_path_getsize demo_env;
  glob := glob demo_env;
  np_load _ := None;
  Dinov2Numpy := Dinov2Numpy demo_env;
  resize_short_side := resize_short_side demo_env
|}.

(** A machine with neither folder. *)
Definition empty_env : environment Z string unit := {|
  os_path_exists p := bool_decide (p = "vit-dinov2-base.npz");
  os_path_getsize _ := Raise Exception;
  glob _ := [];
  np_load _ := Some tt;
  Dinov2Numpy _ := Some demo_vit;
  resize_short_side p := Ok p
|}.

(** A full gallery of 250 good images next to the demo folder. *)
Definition gallery_env : environment Z string unit := {|
  os_path_exists p :=
    bool_decide (p = "gallery" ∨ p = "demo_data" ∨ p = "vit-dinov2-base.npz");
  os_path_getsize _ := Ok 4096%Z;
  glob pattern :=
    if bool_decide (pattern = "gallery/*.jpg")
    then (λ i, "gallery/" +:+ pretty i +:+ ".jpg") <$> seq 0 250
    else glob demo_env pattern;
  np_load _ := Some tt;
  Dinov2Numpy _ := Some demo_vit;
  resize_short_side p := Ok p
|}.

(** The demo machine with a model that returns a bare vector of shape
    [(2,)] instead of one row of shape [(1, 2)]. *)
Definition flat_vit : model Z string :=
  λ input_tensor, Ok (NdArray [2] [Z.of_nat (String.length input_tensor); 7%Z]).

Definition flat_env : environment Z string unit := {|
  os_path_exists := os_path_exists demo_env;
  os_path_getsize := os_path_getsize demo_env;
  glob := glob demo_env;
  np_load := np_load demo_env;
  Dinov2Numpy _ := Some flat_vit;
  resize_short_side := resize_short_side demo_env
|}.

(** A machine whose [gallery] exists but holds no image, next to the demo
    folder. *)
Definition empty_gallery_env : environment Z string unit := {|
  os_path_exists p :=
    bool_decide (p = "gallery" ∨ p = "demo_data" ∨ p = "vit-dinov2-base.npz");
  os_path_getsize := os_path_getsize demo_env;
  glob := glob demo_env;
  np_load := np_load demo_env;
  Dinov2Numpy := Dinov2Numpy demo_env;
  resize_short_side := resize_short_side demo_env
|}.

(** The demo machine with a weight archive that loads but does not hold
    what the model needs. *)
Definition corrupt_weights_env : environment Z string unit := {|
  os_path_exists := os_path_exists demo_env;
  os_path_getsize := os_path_getsize demo_env;
  glob := glob demo_env;
  np_load := np_load demo_env;
  Dinov2Numpy _ := None;
  resize_short_side := resize_short_side demo_env
|}.

(** The demo machine with a model whose row width varies with the input. *)
Definition ragged_vit : model Z string :=
  λ input_tensor,
    Ok (NdArray [1; String.length input_tensor]
                (replicate (String.length input_tensor) 0%Z)).

Definition ragged_env : environment Z string unit := {|
  os_path_exists := os_path_exists demo_env;
  os_path_getsize := os_path_getsize demo_env;
  glob := glob demo_env;
  np_load := np_load demo_env;
  Dinov2Numpy _ := Some ragged_vit;
  resize_short_side := resize_short_side demo_env
|}.

(** The demo machine with a file system that lists the folder in another
    order. *)
Definition shuffled_env : environment Z string unit := {|
  os_path_exists := os_path_exists demo_env;
  os_path_getsize := os_path_getsize demo_env;
  glob pattern :=
    if bool_decide (pattern = "demo_data/*.jpg")
    then ["demo_data/cat.jpg"; "demo_data/stub.jpg"]
    else if bool_decide (pattern = "demo_data/*.png")
    then ["demo_data/broken.png"; "demo_data/vanished.png"; "demo_data/kb.png"]
    else [];
  np_load := np_load demo_env;
  Dinov2Numpy := Dinov2Numpy demo_env;
  resize_short_side := resize_short_side demo_env
|}.

(** * Verification *)

(** ** Chunking *)
Section chunks.
Context {A : Type}.
Implicit Types (l : list A) (bs k : nat).

Lemma py_range_from_zero n bs :
  py_range 0 n bs = (λ k, k * bs) <$> seq 0 ((n + bs - 1) `div` bs).
Proof. unfold py_range. by rewrite Nat.sub_0_r. Qed.

Lemma make_chunks_eq l bs :
  make_chunks l bs
  = (λ k, take bs (drop (k * bs) l)) <$> seq 0 ((length l + bs - 1) `div` bs).
Proof.
  unfold make_chunks. rewrite py_range_from_zero, <-list_fmap_compose.
  apply list_fmap_ext. intros _ k _. simpl. unfold py_slice.
  by replace (k * bs + bs - k * bs) with bs by lia.
Qed.

Lemma chunk_count_spec n bs k :
  0 < bs → k < (n + bs - 1) `div` bs ↔ k * bs < n.
Proof.
  intros Hbs. split; intros H.
  - destruct (decide (k * bs < n)) as [|Hn]; [done|exfalso].
    assert ((n + bs - 1) `div` bs ≤ k); [|lia].
    apply Nat.lt_succ_r, Nat.Div0.div_lt_upper_bound; lia.
  - apply Nat.div_le_lower_bound; lia.
Qed.

Lemma mjoin_slices bs m l :
  length l ≤ m * bs →
  mjoin ((λ k, take bs (drop (k * bs) l)) <$> seq 0 m) = l.
Proof.
  revert l. induction m as [|m IH]; intros l Hlen.
  - by destruct l; simpl in *; [|lia].
  - cbn [seq fmap list_fmap mjoin list_join].
    rewrite <-fmap_S_seq, <-list_fmap_compose. simpl.
    etrans; [|apply (take_drop bs l)]. f_equal.
    rewrite <-(IH (drop bs l)) by (rewrite length_drop; lia).
    f_equal. apply list_fmap_ext. intros _ k _. simpl.
    by rewrite drop_drop.
Qed.

Lemma mjoin_make_chunks l bs : 0 < bs → mjoin (make_chunks l bs) = l.
Proof.
  intros Hbs. rewrite make_chunks_eq. apply mjoin_slices.
  destruct (decide (length l ≤ (length l + bs - 1) `div` bs * bs)); [done|].
  assert ((length l + bs - 1) `div` bs < (length l + bs - 1) `div` bs) as Hk;
    [|lia].
  apply chunk_count_spec; [done|lia].
Qed.

Lemma length_make_chunks l bs :
  length (make_chunks l bs) = (length l + bs - 1) `div` bs.
Proof. by rewrite make_chunks_eq, length_fmap, length_seq. Qed.

Lemma make_chunks_lookup l bs k c :
  make_chunks l bs !! k = Some c →
  c = take bs (drop (k * bs) l) ∧ k < (length l + bs - 1) `div` bs.
Proof.
  rewrite make_chunks_eq, list_lookup_fmap. intros Hk.
  destruct (seq 0 _ !! k) as [j|] eqn:Hj; simplify_eq/=.
  apply lookup_seq in Hj as [-> ?]. done.
Qed.

Lemma make_chunks_lengths l bs :
  length <$> make_chunks l bs
  = (λ k, bs `min` (length l - k * bs)) <$> seq 0 ((length l + bs - 1) `div` bs).
Proof.
  rewrite make_chunks_eq, <-list_fmap_compose. apply list_fmap_ext.
  intros _ k _. simpl. by rewrite length_take, length_drop.
Qed.

Lemma make_chunks_nonempty l bs : 0 < bs → l ≠ [] → make_chunks l bs ≠ [].
Proof.
  intros Hbs Hl Hc. apply (f_equal length) in Hc.
  rewrite length_make_chunks in Hc. simpl in Hc.
  assert (0 < (length l + bs - 1) `div` bs); [|lia].
  apply chunk_count_spec; [done|]. destruct l; simpl; [done|lia].
Qed.
End chunks.

(** ** Pool.imap yields in submission order *)

Lemma completion_order_perm {T} (pending : list T) choices :
  completion_order (length pending) choices pending ≡ₚ pending.
Proof.
  remember (length pending) as n eqn:Hn.
  revert pending choices Hn. induction n as [|n IH]; intros pending choices Hn.
  - by destruct pending.
  - cbn [completion_order].
    assert (hd 0 choices `mod` length pending < length pending) as Hk
      by (apply Nat.mod_upper_bound; lia).
    apply lookup_lt_is_Some_2 in Hk as [t Ht]. rewrite Ht.
    rewrite (IH (delete _ pending)).
    + symmetry. by apply delete_Permutation.
    + rewrite length_delete by eauto. lia.
Qed.

Section imap_correct.
Context {R : Type} (results : list R).
Implicit Types (it : imap_iterator R) (done : list nat).

Lemma imap_inv_init :
  imap_inv results [] imap_init ∧ imap_waiting (imap_init : imap_iterator R).
Proof.
  split; [split|done].
  - done.
  - simpl. lia.
  - intros i. rewrite decide_False; [apply lookup_empty|].
    intros [H _]. by apply elem_of_nil in H.
  - intros i H. by apply elem_of_nil in H.
Qed.

Lemma imap_inv_next done it :
  imap_inv results done it → imap_waiting it → it_index it ∉ done.
Proof.
  intros [_ _ Hun Hb] Hw Hin. unfold imap_waiting in Hw.
  rewrite Hun, decide_True in Hw by done.
  apply Hb, lookup_lt_is_Some_2 in Hin as [? ?]. congruence.
Qed.

Lemma imap_drain_inv done fuel it :
  imap_inv results done it → size (it_unsorted it) ≤ fuel →
  imap_inv results done (imap_drain fuel it) ∧ imap_waiting (imap_drain fuel it).
Proof.
  revert it. induction fuel as [|fuel IH]; intros it Hinv Hsize; simpl.
  - split; [done|]. unfold imap_waiting.
    assert (it_unsorted it = ∅) as -> by (apply map_size_empty_inv; lia).
    apply lookup_empty.
  - destruct (it_unsorted it !! it_index it) as [obj|] eqn:Hobj; [|done].
    destruct Hinv as [Hit Hlt Hun Hb].
    assert (it_index it ∈ done ∧ results !! it_index it = Some obj) as [Hd Hr].
    { rewrite Hun in Hobj. case_decide as H; [|done]. by destruct H. }
    apply IH; simpl.
    + split; simpl.
      * rewrite Hit. symmetry. by apply take_S_r.
      * intros i Hi. destruct (decide (i = it_index it)) as [->|]; [done|].
        apply Hlt. lia.
      * intros i. destruct (decide (i = it_index it)) as [->|Hne].
        { rewrite lookup_delete_eq, decide_False; [done|]. lia. }
        rewrite lookup_delete_ne, Hun by done.
        apply decide_ext. split; intros [? ?]; (split; [done|lia]).
      * done.
    + rewrite map_size_delete_Some by eauto. lia.
Qed.

Lemma imap_set_inv done it i obj :
  imap_inv results done it → imap_waiting it →
  i ∉ done → results !! i = Some obj →
  imap_inv results (i :: done) (imap_set it (i, obj))
  ∧ imap_waiting (imap_set it (i, obj)).
Proof.
  intros Hinv Hw Hi Hobj. pose proof Hinv as [Hit Hlt Hun Hb].
  assert (∀ j, j ∈ i :: done → j < length results) as Hb'.
  { intros j [->|?]%elem_of_cons; [|by auto].
    apply lookup_lt_is_Some_1. eauto. }
  unfold imap_set. case_decide as Hidx.
  - apply imap_drain_inv; [|done]. subst i. split; simpl.
    + rewrite Hit. symmetry. by apply take_S_r.
    + intros j Hj. apply elem_of_cons.
      destruct (decide (j = it_index it)); [by left|right]. apply Hlt. lia.
    + intros j. rewrite Hun.
      destruct (decide (j = it_index it)) as [->|Hne].
      * rewrite decide_False by (by intros [? _]).
        rewrite decide_False; [done|]. intros [_ ?]. lia.
      * apply decide_ext. rewrite elem_of_cons.
        split; intros [? ?]; (split; [|lia]); naive_solver.
    + done.
  - assert (it_index it ≤ i) as Hle.
    { destruct (decide (it_index it ≤ i)); [done|].
      destruct Hi. apply Hlt. lia. }
    split; [split; simpl|].
    + done.
    + intros j Hj. apply elem_of_cons. right. by apply Hlt.
    + intros j. destruct (decide (j = i)) as [->|Hne].
      * rewrite lookup_insert_eq, decide_True; [done|].
        split; [apply elem_of_cons; by left|done].
      * rewrite lookup_insert_ne, Hun by done.
        apply decide_ext. rewrite elem_of_cons. naive_solver.
    + done.
    + unfold imap_waiting. simpl. by rewrite lookup_insert_ne.
Qed.

Lemma foldl_imap_set_inv (order : list (nat * R)) done it :
  imap_inv results done it → imap_waiting it →
  NoDup (order.*1 ++ done) →
  (∀ i obj, (i, obj) ∈ order → results !! i = Some obj) →
  ∃ done', (∀ i, i ∈ done' ↔ i ∈ order.*1 ∨ i ∈ done)
           ∧ imap_inv results done' (foldl imap_set it order)
           ∧ imap_waiting (foldl imap_set it order).
Proof.
  revert done it. induction order as [|[i obj] order IH];
    intros done it Hinv Hw Hnd Hres; simpl.
  - exists done. split; [|done]. intros i. rewrite elem_of_nil. naive_solver.
  - simpl in Hnd. apply NoDup_cons in Hnd as [Hi Hnd].
    destruct (imap_set_inv done it i obj) as [Hinv' Hw']; [done..| | |].
    { intros ?. apply Hi, elem_of_app. by right. }
    { apply Hres. by left. }
    destruct (IH (i :: done) _ Hinv' Hw') as (done' & Hdone' & ? & ?).
    { apply NoDup_app. apply NoDup_app in Hnd as (? & Hdisj & ?).
      split_and!; [done| |].
      - intros j Hj [->|?]%elem_of_cons; [|by eapply Hdisj].
        apply Hi, elem_of_app. by left.
      - apply NoDup_cons. split; [|done].
        intros ?. apply Hi, elem_of_app. by right. }
    { intros j o Hj. apply Hres. by right. }
    exists done'. split; [|done]. intros j.
    rewrite Hdone', !elem_of_cons. naive_solver.
Qed.
End imap_correct.

(** Whatever the completion order, the consumer of [imap] sees the results
    in submission order. *)
Lemma pool_imap_ordered {T R} (choices : list nat) (f : T → R) (tasks : list T) :
  pool_imap choices f tasks = f <$> tasks.
Proof.
  unfold pool_imap.
  set (numbered := zip (seq 0 (length tasks)) tasks).
  set (completed := completion_order (length numbered) choices numbered).
  assert (completed ≡ₚ numbered) as Hperm by apply completion_order_perm.
  assert ((prod_map id f <$> completed).*1 ≡ₚ seq 0 (length tasks)) as Hidx.
  { rewrite <-list_fmap_compose.
    rewrite (list_fmap_ext _ fst completed) by (by intros _ [? ?] _).
    rewrite Hperm. unfold numbered. rewrite fst_zip; [done|].
    by rewrite length_seq. }
  destruct (imap_inv_init (f <$> tasks)) as [Hinv0 Hw0].
  destruct (foldl_imap_set_inv (f <$> tasks) (prod_map id f <$> completed)
              [] imap_init Hinv0 Hw0) as (done' & Hdone' & Hinv & Hw).
  - rewrite app_nil_r, Hidx. apply NoDup_seq.
  - intros i obj ([j t] & [= -> ->] & Hin)%list_elem_of_fmap.
    rewrite Hperm in Hin. apply list_elem_of_lookup in Hin as [k Hk].
    apply lookup_zip_Some in Hk as [Hk Ht].
    apply lookup_seq in Hk as [-> _]. simpl.
    by rewrite list_lookup_fmap, Ht.
  - pose proof (imap_inv_next _ _ _ Hinv Hw) as Hnext.
    rewrite (inv_items _ _ _ Hinv). apply take_ge.
    rewrite length_fmap.
    set (it := foldl imap_set imap_init (prod_map id f <$> completed)) in *.
    destruct (decide (length tasks ≤ it_index it)) as [|Hlt]; [done|].
    destruct Hnext. apply Hdone'. left.
    rewrite Hidx. apply elem_of_seq. lia.
Qed.

(** ** np.concatenate on one-row features *)
Section concatenate.
Context {scalar : Type}.
Implicit Types (a : ndarray scalar) (arrays : list (ndarray scalar)).

Lemma sum_nrows_one_row D arrays :
  Forall (one_row D) arrays → sum_list (nrows <$> arrays) = length arrays.
Proof.
  induction 1 as [|a arrays [Ha _] _ IH]; [done|].
  rewrite fmap_cons. cbn [sum_list_with length]. rewrite IH.
  unfold nrows. by rewrite Ha.
Qed.

Lemma np_concatenate_one_row D arrays :
  Forall (one_row D) arrays → arrays ≠ [] →
  np_concatenate arrays
  = Ok (NdArray [length arrays; D] (mjoin (data <$> arrays))).
Proof.
  intros Hall Hne. destruct arrays as [|a arrays]; [done|].
  unfold np_concatenate.
  pose proof (Forall_inv Hall) as [Ha _]. rewrite Ha.
  assert (forallb (λ b, bool_decide (tail (shape b) = [D] ∧ shape b ≠ []))
            (a :: arrays) = true) as ->.
  { apply forallb_forall. intros b Hb%list_elem_of_In.
    rewrite Forall_forall in Hall. destruct (Hall b Hb) as [Hs _].
    apply bool_decide_eq_true. by rewrite Hs. }
  by rewrite (sum_nrows_one_row D).
Qed.

Lemma np_concatenate_raise arrays e :
  np_concatenate arrays = Raise e → e = Exception.
Proof.
  unfold np_concatenate. destruct arrays as [|a arrays]; [by intros [=]|].
  destruct (shape a); [by intros [=]|].
  destruct (forallb _ _); [done|by intros [=]].
Qed.

Lemma take_drop_mjoin {A} D (ls : list (list A)) i l :
  Forall (λ l, length l = D) ls → ls !! i = Some l →
  take D (drop (i * D) (mjoin ls)) = l.
Proof.
  intros Hall. revert i. induction Hall as [|l0 ls Hl0 _ IH]; intros i Hi.
  - done.
  - destruct i as [|i]; simplify_eq/=.
    + by rewrite drop_0, take_app_length.
    + rewrite drop_app_add. by apply IH.
Qed.

Lemma row_concatenated D arrays i a :
  Forall (one_row D) arrays → arrays !! i = Some a →
  row (NdArray [length arrays; D] (mjoin (data <$> arrays))) i = data a.
Proof.
  intros Hall Hi. unfold row, row_size. simpl. rewrite Nat.mul_1_r.
  apply take_drop_mjoin.
  - apply Forall_fmap. eapply Forall_impl; [done|]. by intros ? [_ ?].
  - by rewrite list_lookup_fmap, Hi.
Qed.
End concatenate.

(** ** The worker *)
Section worker.
Context {scalar tensor weights : Type}.
Variable env : environment scalar tensor weights.
Implicit Types (vit : model scalar tensor) (path : string)
  (image_paths all_paths : list string)
  (acc : list (ndarray scalar) * list string).

Lemma process_image_cases vit acc path :
  process_image env vit acc path
  = match feature_of env vit path with
    | Some feature => (acc.1 ++ [feature], acc.2 ++ [path])
    | None => acc
    end.
Proof.
  unfold process_image, feature_of.
  by destruct (image_feature env vit path) as [[?|]|?].
Qed.

Lemma foldl_process_image vit image_paths acc :
  foldl (process_image env vit) acc image_paths
  = (acc.1 ++ omap (feature_of env vit) image_paths,
     acc.2 ++ filter (indexed env vit) image_paths).
Proof.
  revert acc. induction image_paths as [|path image_paths IH]; intros acc.
  - simpl. rewrite !app_nil_r. by destruct acc.
  - cbn [foldl]. rewrite IH, process_image_cases. unfold indexed.
    cbn [omap list_omap]. fold (omap (feature_of env vit) image_paths).
    destruct (feature_of env vit path) as [feature|] eqn:Hf.
    + rewrite filter_cons_True by (rewrite Hf; eauto).
      simpl. by rewrite <-!app_assoc.
    + rewrite filter_cons_False; [done|]. rewrite Hf. by intros [? ?].
Qed.

Lemma worker_model_raise e : worker_model env = Raise e → e = Exception.
Proof.
  unfold worker_model.
  destruct (negb _); [done|].
  destruct (np_load env weight_file) as [w|]; [|by intros [=]].
  destruct (Dinov2Numpy env w); [done|by intros [=]].
Qed.

Lemma process_batch_model image_paths :
  process_batch env image_paths
  = match worker_model env with
    | Raise e => Raise e
    | Ok None => Ok ([], [])
    | Ok (Some vit) =>
        Ok (omap (feature_of env vit) image_paths,
            filter (indexed env vit) image_paths)
    end.
Proof.
  unfold process_batch, worker_model.
  destruct (negb (os_path_exists env weight_file)); [done|].
  destruct (np_load env weight_file) as [w|]; [|done].
  destruct (Dinov2Numpy env w) as [vit|]; [|done].
  by rewrite foldl_process_image.
Qed.

Lemma length_omap_feature vit image_paths :
  length (omap (feature_of env vit) image_paths)
  = length (filter (indexed env vit) image_paths).
Proof.
  induction image_paths as [|path image_paths IH]; [done|].
  cbn [omap list_omap]. fold (omap (feature_of env vit) image_paths).
  unfold indexed.
  destruct (feature_of env vit path) as [feature|] eqn:Hf.
  - rewrite filter_cons_True by (rewrite Hf; eauto). simpl. by rewrite IH.
  - rewrite filter_cons_False; [done|]. rewrite Hf. by intros [? ?].
Qed.

(** Row [i] of the features that a chunk returns was computed from path
    [i] of the paths it returns. *)
Lemma omap_feature_lookup vit image_paths i path :
  filter (indexed env vit) image_paths !! i = Some path →
  ∃ feature, feature_of env vit path = Some feature
             ∧ omap (feature_of env vit) image_paths !! i = Some feature.
Proof.
  revert i. induction image_paths as [|p image_paths IH]; intros i; [done|].
  cbn [omap list_omap]. fold (omap (feature_of env vit) image_paths).
  unfold indexed.
  destruct (feature_of env vit p) as [feature|] eqn:Hf.
  - rewrite filter_cons_True by (rewrite Hf; eauto).
    destruct i as [|i]; simpl; [|by apply IH].
    intros [= <-]. eauto.
  - rewrite filter_cons_False by (rewrite Hf; by intros [? ?]). by apply IH.
Qed.

Lemma omap_mjoin {A B} (f : A → option B) (ls : list (list A)) :
  mjoin (omap f <$> ls) = omap f (mjoin ls).
Proof.
  induction ls as [|l ls IH]; [done|].
  simpl. by rewrite omap_app, <-IH.
Qed.

Lemma filter_mjoin {A} (P : A → Prop) `{!∀ x, Decision (P x)}
    (ls : list (list A)) :
  mjoin (filter P <$> ls) = filter P (mjoin ls).
Proof.
  induction ls as [|l ls IH]; [done|].
  simpl. by rewrite filter_app, <-IH.
Qed.

Lemma collect_ok (chunk_results : list (list (ndarray scalar) * list string)) acc :
  Forall (λ r, length r.1 = length r.2) chunk_results →
  collect (Ok <$> chunk_results) acc
  = Ok (acc.1 ++ mjoin chunk_results.*1, acc.2 ++ mjoin chunk_results.*2).
Proof.
  intros Hall. revert acc.
  induction Hall as [|[features paths] rs Hlen _ IH]; intros acc.
  - simpl. rewrite !app_nil_r. by destruct acc.
  - rewrite fmap_cons. cbn [collect]. rewrite IH. simpl in Hlen. case_bool_decide as Hpos.
    + simpl. by rewrite <-!app_assoc.
    + destruct features; [|simpl in Hpos; lia].
      destruct paths; [|done]. done.
Qed.

Lemma collect_raise {A} e (chunks : list A) acc :
  chunks ≠ [] →
  collect ((λ _, Raise e) <$> chunks) acc
  = (Raise e : result (list (ndarray scalar) * list string)).
Proof. by destruct chunks. Qed.

(** The loop of lines 100-103 over the results of all chunks. *)
Lemma collect_process_batch all_paths :
  all_paths ≠ [] →
  collect (process_batch env <$> make_chunks all_paths 100) ([], [])
  = match worker_model env with
    | Raise e => Raise e
    | Ok None => Ok ([], [])
    | Ok (Some vit) =>
        Ok (omap (feature_of env vit) all_paths,
            filter (indexed env vit) all_paths)
    end.
Proof.
  intros Hne.
  assert (make_chunks all_paths 100 ≠ []) as Hchunks
    by (apply make_chunks_nonempty; [lia|done]).
  pose proof (mjoin_make_chunks all_paths 100 ltac:(lia)) as Hjoin.
  revert Hchunks Hjoin. generalize (make_chunks all_paths 100).
  intros chunks Hchunks Hjoin.
  destruct (worker_model env) as [[vit|]|e] eqn:Hmodel.
  - rewrite (list_fmap_ext _
      (Ok ∘ (λ c, (omap (feature_of env vit) c, filter (indexed env vit) c))) chunks)
      by (intros _ c _; by rewrite process_batch_model, Hmodel).
    rewrite list_fmap_compose, collect_ok.
    + simpl. rewrite <-!list_fmap_compose.
      rewrite (list_fmap_ext _ (omap (feature_of env vit)) chunks) by done.
      rewrite (list_fmap_ext _ (filter (indexed env vit)) chunks) by done.
      by rewrite omap_mjoin, filter_mjoin, Hjoin.
    + apply Forall_fmap, Forall_forall. intros c _. apply length_omap_feature.
  - rewrite (list_fmap_ext _ (λ _, Ok ([], [])) chunks)
      by (intros _ c _; by rewrite process_batch_model, Hmodel).
    clear Hjoin Hchunks. induction chunks as [|c chunks IH]; [done|].
    rewrite fmap_cons. cbn [collect]. by rewrite bool_decide_eq_false_2 by (simpl; lia).
  - rewrite (list_fmap_ext _ (λ _, Raise e) chunks)
      by (intros _ c _; by rewrite process_batch_model, Hmodel).
    by apply collect_raise.
Qed.

Lemma feature_of_Some vit path feature :
  feature_of env vit path = Some feature
  ↔ image_feature env vit path = Ok (Some feature).
Proof.
  unfold feature_of. destruct (image_feature env vit path) as [[?|]|?];
    naive_solver.
Qed.

Lemma image_feature_Some vit path feature :
  image_feature env vit path = Ok (Some feature)
  ↔ ∃ size input_tensor,
      os_path_getsize env path = Ok size ∧ (1024 ≤ size)%Z
      ∧ resize_short_side env path = Ok input_tensor
      ∧ vit input_tensor = Ok feature.
Proof.
  unfold image_feature. split.
  - destruct (os_path_getsize env path) as [size|]; [|done].
    destruct (Z.ltb_spec size 1024); [done|].
    destruct (resize_short_side env path) as [input_tensor|]; [|done].
    destruct (vit input_tensor) as [f|] eqn:Hvit; [|done].
    intros [= <-]. by exists size, input_tensor.
  - intros (size & input_tensor & -> & Hsize & -> & ->).
    by destruct (Z.ltb_spec size 1024); [lia|].
Qed.

Lemma undersized_not_indexed vit path size :
  os_path_getsize env path = Ok size → (size < 1024)%Z →
  image_feature env vit path = Ok None ∧ ¬ indexed env vit path.
Proof.
  intros Hsize Hsmall.
  assert (image_feature env vit path = Ok None) as Himg.
  { unfold image_feature. rewrite Hsize.
    by destruct (Z.ltb_spec size 1024); [|lia]. }
  split; [done|]. unfold indexed, feature_of. rewrite Himg. by intros [? ?].
Qed.

Lemma omap_feature_Forall2 vit image_paths :
  Forall2 (λ feature path, image_feature env vit path = Ok (Some feature))
    (omap (feature_of env vit) image_paths)
    (filter (indexed env vit) image_paths).
Proof.
  apply Forall2_same_length_lookup_2; [apply length_omap_feature|].
  intros i feature path Hf Hp.
  apply omap_feature_lookup in Hp as (feature' & Hfeat & Hi).
  apply feature_of_Some. congruence.
Qed.

Lemma features_one_row D vit image_paths :
  model_contract env D → worker_model env = Ok (Some vit) →
  Forall (one_row D) (omap (feature_of env vit) image_paths).
Proof.
  intros Hcontract Hmodel. apply Forall_forall. intros feature Hin.
  apply list_elem_of_omap in Hin as (path & _ & Hfeat).
  apply feature_of_Some, image_feature_Some in Hfeat
    as (size & input_tensor & _ & _ & _ & Hvit).
  by eapply Hcontract.
Qed.

Lemma StronglySorted_filter {A} (R : relation A) (P : A → Prop)
    `{!∀ x, Decision (P x)} (l : list A) :
  StronglySorted R l → StronglySorted R (filter P l).
Proof.
  induction 1 as [|x l Hl IH Hx]; [constructor|].
  rewrite filter_cons. case_decide; [|done].
  constructor; [done|]. apply Forall_forall.
  intros y [_ Hy]%list_elem_of_filter. rewrite Forall_forall in Hx. auto.
Qed.
End worker.

(** ** The run *)
Section run.
Context {scalar tensor weights : Type}.
Variable env : environment scalar tensor weights.
Implicit Types (choices : list nat) (target_folder : string)
  (tr : list (event scalar)).

(** Every schedule of the pool computes the sequential pass. *)
Lemma index_folder_schedule_free choices target_folder :
  index_folder env choices target_folder
  = index_folder_sequential env target_folder.
Proof.
  unfold index_folder, index_folder_sequential, dispatch_events, success_events.
  rewrite pool_imap_ordered.
  destruct (decide (discover env target_folder = [])) as [Hnil|Hne].
  { rewrite Hnil. done. }
  rewrite collect_process_batch by done.
  rewrite bool_decide_eq_false_2
    by (destruct (discover env target_folder); simpl; [done|lia]).
  destruct (discover env target_folder) as [|p all_paths] eqn:Hd; [done|].
  rewrite <-Hd. clear Hne.
  destruct (worker_model env) as [[vit|]|e]; [| done | done].
  pose proof (length_omap_feature env vit (discover env target_folder)) as Hlen.
  destruct (omap (feature_of env vit) (discover env target_folder))
    as [|feature all_features] eqn:Hfeat; [done|].
  unfold mbind, M_bind, print, np_save, emit, lift. cbv beta iota.
  rewrite bool_decide_eq_true_2 by (simpl; lia).
  generalize (np_concatenate (feature :: all_features)).
  by intros [final_features|e].
Qed.

Lemma build_index_fast_selected choices :
  build_index_fast env choices
  = match selected_folder env with
    | None => ([Print MsgNoSourceFolder; Print MsgNoSourceAdvice], Ok tt)
    | Some target_folder =>
        let '(tr, r) := index_folder_sequential env target_folder in
        (banner target_folder ++ tr, r)
    end.
Proof.
  unfold build_index_fast, selected_folder.
  destruct (os_path_exists env "gallery");
    [|destruct (os_path_exists env "demo_data")];
    rewrite ?index_folder_schedule_free;
    try destruct (index_folder_sequential env _) as [tr [[]|e]]; done.
Qed.

(** The top-level invocation, whatever the schedule, goes one of the six
    ways of [run_spec]. *)
Lemma main_spec choices : run_spec env (main env choices).
Proof.
  unfold main. rewrite build_index_fast_selected.
  destruct (selected_folder env) as [target_folder|] eqn:Hsel;
    [|by apply run_no_source].
  unfold index_folder_sequential.
  destruct (discover env target_folder) as [|p all_paths] eqn:Hd.
  { by apply run_no_images. }
  rewrite <-Hd.
  assert (discover env target_folder ≠ []) as Hne by (by rewrite Hd).
  destruct (worker_model env) as [[vit|]|e] eqn:Hmodel.
  - destruct (omap (feature_of env vit) (discover env target_folder))
      as [|feature all_features] eqn:Hfeat.
    { eapply run_nothing_indexed; [done..|]. by intros ? [= <-]. }
    rewrite <-Hfeat.
    assert (omap (feature_of env vit) (discover env target_folder) ≠ [])
      by (by rewrite Hfeat).
    destruct (np_concatenate _) as [final_features|e] eqn:Hcat.
    + by eapply run_index_written.
    + rewrite (np_concatenate_raise _ _ Hcat).
      by eapply run_concatenate_raised.
  - eapply run_nothing_indexed; [done..|]. by intros ? [=].
  - rewrite (worker_model_raise env _ Hmodel).
    by eapply run_worker_raised.
Qed.
End run.

(** ** Reading the events of the six ways *)
Section trace_facts.
Context {scalar tensor weights : Type}.
Variable env : environment scalar tensor weights.
Implicit Types (tr : list (event scalar)) (target_folder : string).

Lemma saved_app tr1 tr2 : saved (tr1 ++ tr2) = saved tr1 ++ saved tr2.
Proof. apply omap_app. Qed.
Lemma dispatched_app tr1 tr2 :
  dispatched (tr1 ++ tr2) = dispatched tr1 ++ dispatched tr2.
Proof. apply omap_app. Qed.
Lemma printed_app tr1 tr2 : printed (tr1 ++ tr2) = printed tr1 ++ printed tr2.
Proof. apply omap_app. Qed.
Lemma scanned_app tr1 tr2 : scanned (tr1 ++ tr2) = scanned tr1 ++ scanned tr2.
Proof. unfold scanned. by rewrite printed_app, omap_app. Qed.

Lemma saved_banner target_folder : saved (banner (scalar:=scalar) target_folder) = [].
Proof. unfold banner. by case_bool_decide. Qed.
Lemma dispatched_banner target_folder :
  dispatched (banner (scalar:=scalar) target_folder) = [].
Proof. unfold banner. by case_bool_decide. Qed.
Lemma scanned_banner target_folder :
  scanned (banner (scalar:=scalar) target_folder) = [].
Proof. unfold banner. by case_bool_decide. Qed.

Lemma saved_dispatch_events target_folder :
  saved (dispatch_events env target_folder) = [].
Proof. done. Qed.
Lemma dispatched_dispatch_events target_folder :
  dispatched (dispatch_events env target_folder)
  = [(4, make_chunks (discover env target_folder) 100)].
Proof. done. Qed.
Lemma scanned_dispatch_events target_folder :
  scanned (dispatch_events env target_folder) = [target_folder].
Proof. done. Qed.

Lemma saved_success_events target_folder final_features final_paths :
  saved (success_events env target_folder final_features final_paths)
  = [(features_file, NpyNumeric final_features);
     (paths_file, NpyStrings final_paths)].
Proof. done. Qed.
Lemma dispatched_success_events target_folder final_features final_paths :
  dispatched (success_events env target_folder final_features final_paths) = [].
Proof. done. Qed.
Lemma scanned_success_events target_folder final_features final_paths :
  scanned (success_events env target_folder final_features final_paths) = [].
Proof. done. Qed.

Lemma scanned_index_folder_sequential target_folder :
  scanned (index_folder_sequential env target_folder).1 = [target_folder].
Proof.
  unfold index_folder_sequential.
  destruct (discover env target_folder) as [|p all_paths] eqn:Hd; [done|].
  rewrite <-Hd.
  destruct (worker_model env) as [[vit|]|e]; [|done..].
  destruct (omap _ _) as [|feature all_features]; [done|].
  by destruct (np_concatenate _).
Qed.

Lemma dispatched_index_folder_sequential target_folder :
  dispatched (index_folder_sequential env target_folder).1
  = if decide (discover env target_folder = []) then []
    else [(4, make_chunks (discover env target_folder) 100)].
Proof.
  unfold index_folder_sequential.
  destruct (discover env target_folder) as [|p all_paths] eqn:Hd; [done|].
  rewrite <-Hd, decide_False by (by rewrite Hd).
  destruct (worker_model env) as [[vit|]|e]; [|done..].
  destruct (omap _ _) as [|feature all_features]; [done|].
  by destruct (np_concatenate _).
Qed.

Lemma sorted_discover target_folder :
  Sorted String.le (discover env target_folder)
  ∧ discover env target_folder
    ≡ₚ glob env (os_path_join target_folder "*.jpg")
       ++ glob env (os_path_join target_folder "*.png").
Proof.
  unfold discover, sorted. split.
  - apply (Sorted_merge_sort _).
  - apply merge_sort_Permutation.
Qed.

(** A run that saves nothing leaves the files as they were. *)
Lemma files_after_unsaved tr files : saved tr = [] → files_after tr files = files.
Proof.
  revert files. induction tr as [|e tr IH]; intros files Hs; [done|].
  destruct e; simpl in *; try done; by apply IH.
Qed.

End trace_facts.

Create Rewrite HintDb trace.
Global Hint Rewrite
  @saved_app @dispatched_app @scanned_app
  @saved_banner @dispatched_banner @scanned_banner
  @saved_dispatch_events @dispatched_dispatch_events @scanned_dispatch_events
  @saved_success_events @dispatched_success_events @scanned_success_events
  : trace.

(** Reads [saved], [dispatched] and [scanned] off the events of one of the
    six ways. *)
Ltac read_events := cbn [fst snd]; autorewrite with trace; simpl.

Section run_observations.
Context {scalar tensor weights : Type}.
Variable env : environment scalar tensor weights.

Lemma dispatched_main choices target_folder :
  selected_folder env = Some target_folder →
  discover env target_folder ≠ [] →
  dispatched (main env choices).1
  = [(4, make_chunks (discover env target_folder) 100)].
Proof.
  intros Hsel Hne.
  destruct (main_spec env choices); simplify_eq; by read_events.
Qed.


(** A run writes either nothing, or the feature matrix followed by the
    path array. *)
Lemma saved_main choices :
  saved (main env choices).1 = []
  ∨ ∃ target_folder vit final_features,
      selected_folder env = Some target_folder
      ∧ worker_model env = Ok (Some vit)
      ∧ omap (feature_of env vit) (discover env target_folder) ≠ []
      ∧ np_concatenate (omap (feature_of env vit) (discover env target_folder))
        = Ok final_features
      ∧ saved (main env choices).1
        = [(features_file, NpyNumeric final_features);
           (paths_file,
            NpyStrings (filter (indexed env vit) (discover env target_folder)))].
Proof.
  destruct (main_spec env choices) as [| | | | |tf vit ff];
    [left; by read_events..|].
  right. exists tf, vit, ff. split_and!; [done..|]. by read_events.
Qed.

(** The schedule has no say in what the run does. *)
Lemma main_schedule_free choices1 choices2 :
  main env choices1 = main env choices2.
Proof. unfold main. by rewrite !build_index_fast_selected. Qed.
End run_observations.

(** * The claims *)
Section claims.
Context {scalar tensor weights : Type}.
Implicit Types (env : environment scalar tensor weights)
  (choices : list nat) (target_folder path : string)
  (image_paths : list string) (vit : model scalar tensor)
  (files : gmap string (npy scalar)).

(** C8. Missing-source abort: when neither [gallery] nor [demo_data]
    exists, the top-level invocation prints the two error lines and
    returns normally; the pool is never started, [np.save] is never called
    and the files on disk are left as they were. *)
Theorem missing_source_aborts env choices files :
  os_path_exists env "gallery" = false →
  os_path_exists env "demo_data" = false →
  main env choices = ([Print MsgNoSourceFolder; Print MsgNoSourceAdvice], Ok tt)
  ∧ dispatched (main env choices).1 = []
  ∧ saved (main env choices).1 = []
  ∧ files_after (main env choices).1 files = files.
Proof.
  intros Hgallery Hdemo.
  assert (main env choices
          = ([Print MsgNoSourceFolder; Print MsgNoSourceAdvice], Ok tt)) as ->.
  { unfold main, build_index_fast. by rewrite Hgallery, Hdemo. }
  done.
Qed.

(** C4. Source folder priority: when [gallery] exists, [build_index_fast]
    scans [gallery] and nothing else, whether or not [demo_data] exists: the
    rest of the run is [index_folder] on [gallery] and the chunks handed to
    the pool are cut from the images discovered there. [demo_data] is
    scanned exactly when [gallery] is absent and [demo_data] exists. *)
Theorem source_folder_priority env choices :
  (os_path_exists env "gallery" = true →
     scanned (build_index_fast env choices).1 = ["gallery"]
     ∧ build_index_fast env choices
       = (banner "gallery" ++ (index_folder env choices "gallery").1,
          (index_folder env choices "gallery").2)
     ∧ (dispatched (build_index_fast env choices).1 = []
        ∨ dispatched (build_index_fast env choices).1
          = [(4, make_chunks (discover env "gallery") 100)]))
  ∧ (scanned (build_index_fast env choices).1 = ["demo_data"]
     ↔ os_path_exists env "gallery" = false
       ∧ os_path_exists env "demo_data" = true).
Proof.
  rewrite build_index_fast_selected, index_folder_schedule_free.
  unfold selected_folder.
  destruct (os_path_exists env "gallery") eqn:Hgallery.
  - pose proof (scanned_index_folder_sequential env "gallery") as Hs.
    pose proof (dispatched_index_folder_sequential env "gallery") as Hd.
    destruct (index_folder_sequential env "gallery") as [tr r]. cbn [fst snd] in *.
    rewrite scanned_app, dispatched_app, scanned_banner, dispatched_banner, Hs, Hd.
    split; [intros _; split_and!; [done..|]|].
    + case_decide; [by left|by right].
    + simpl. split; [intros [=]|intros [[=] _]].
  - destruct (os_path_exists env "demo_data") eqn:Hdemo.
    + pose proof (scanned_index_folder_sequential env "demo_data") as Hs.
      destruct (index_folder_sequential env "demo_data") as [tr r]. cbn [fst snd] in *.
      rewrite scanned_app, scanned_banner, Hs. done.
    + simpl. split; [done|]. split; [intros [=]|intros [_ [=]]].
Qed.

(** C3. Chunk partition: when a source folder is selected and holds
    images, the run hands the pool of 4 workers exactly the chunks
    [all_paths[0:100], all_paths[100:200], ...] of the sorted discovered
    list: their concatenation is the list, chunk [k] holds the paths at
    positions [100 k .. 100 k + 99] in their order, every chunk but the
    last has 100 paths and the last has between 1 and 100; 250 paths give
    three chunks of 100, 100 and 50. *)
Theorem chunk_partition env choices target_folder :
  selected_folder env = Some target_folder →
  discover env target_folder ≠ [] →
  Sorted String.le (discover env target_folder)
  ∧ dispatched (main env choices).1
    = [(4, make_chunks (discover env target_folder) 100)]
  ∧ mjoin (make_chunks (discover env target_folder) 100)
    = discover env target_folder
  ∧ (∀ k chunk,
       make_chunks (discover env target_folder) 100 !! k = Some chunk →
       chunk = take 100 (drop (k * 100) (discover env target_folder))
       ∧ 0 < length chunk ≤ 100
       ∧ (S k < length (make_chunks (discover env target_folder) 100) →
          length chunk = 100)
       ∧ ∀ j, j < 100 →
              chunk !! j = discover env target_folder !! (k * 100 + j))
  ∧ (length (discover env target_folder) = 250 →
     length <$> make_chunks (discover env target_folder) 100 = [100; 100; 50]).
Proof.
  intros Hsel Hne. split_and!.
  - apply sorted_discover.
  - by apply dispatched_main.
  - apply mjoin_make_chunks. lia.
  - intros k chunk Hk. rewrite length_make_chunks.
    apply make_chunks_lookup in Hk as [-> Hk].
    pose proof Hk as Hlt. apply chunk_count_spec in Hlt; [|lia].
    rewrite length_take, length_drop. split_and!; [done|lia|lia| |].
    + intros Hnext. apply chunk_count_spec in Hnext; lia.
    + intros j Hj. rewrite lookup_take_lt, lookup_drop by done. done.
  - intros Hlen. by rewrite make_chunks_lengths, Hlen.
Qed.

(** C6. Per-image error absorption: one turn of the loop of
    [process_batch] either appends exactly one feature and its path or
    leaves both lists as they are; an exception from [os.path.getsize],
    from [resize_short_side] or from the model call leaves them as they
    are. With a loaded model [process_batch] returns for every chunk, and
    it raises only what loading the model raised, whatever the images. *)
Theorem per_image_errors_absorbed env vit :
  (∀ acc path,
     (∃ feature, image_feature env vit path = Ok (Some feature)
                 ∧ process_image env vit acc path
                   = (acc.1 ++ [feature], acc.2 ++ [path]))
     ∨ process_image env vit acc path = acc)
  ∧ (∀ acc path e,
       os_path_getsize env path = Raise e →
       process_image env vit acc path = acc)
  ∧ (∀ acc path size e,
       os_path_getsize env path = Ok size →
       resize_short_side env path = Raise e →
       process_image env vit acc path = acc)
  ∧ (∀ acc path size input_tensor e,
       os_path_getsize env path = Ok size →
       resize_short_side env path = Ok input_tensor →
       vit input_tensor = Raise e →
       process_image env vit acc path = acc)
  ∧ (∀ image_paths,
       worker_model env = Ok (Some vit) →
       ∃ features paths,
         process_batch env image_paths = Ok (features, paths)
         ∧ length features = length paths
         ∧ paths `sublist_of` image_paths)
  ∧ (∀ image_paths e,
       process_batch env image_paths = Raise e ↔ worker_model env = Raise e).
Proof.
  split_and!.
  - intros acc path. unfold process_image.
    destruct (image_feature env vit path) as [[feature|]|e]; eauto.
  - intros acc path e Hsize. unfold process_image, image_feature.
    by rewrite Hsize.
  - intros acc path size e Hsize Hresize. unfold process_image, image_feature.
    rewrite Hsize, Hresize. by destruct (size <? 1024)%Z.
  - intros acc path size input_tensor e Hsize Hresize Hvit.
    unfold process_image, image_feature.
    rewrite Hsize, Hresize, Hvit. by destruct (size <? 1024)%Z.
  - intros image_paths Hmodel. rewrite process_batch_model, Hmodel.
    eexists _, _. split_and!; [done| |].
    + apply length_omap_feature.
    + apply sublist_filter.
  - intros image_paths e. rewrite process_batch_model.
    destruct (worker_model env) as [[?|]|?]; naive_solver.
Qed.

(** C2. Undersized-file filter: a path whose file is smaller than 1024
    bytes is passed over by the loop without changing the lists, is not
    among the paths any call of [process_batch] returns, and is not in the
    path array of any run. *)
Theorem undersized_files_skipped env path size :
  os_path_getsize env path = Ok size → (size < 1024)%Z →
  (∀ vit acc, process_image env vit acc path = acc)
  ∧ (∀ image_paths features paths,
       process_batch env image_paths = Ok (features, paths) → path ∉ paths)
  ∧ (∀ choices file final_paths,
       (file, NpyStrings final_paths) ∈ saved (main env choices).1 →
       path ∉ final_paths).
Proof.
  intros Hsize Hsmall. split_and!.
  - intros vit acc. unfold process_image.
    by destruct (undersized_not_indexed env vit path size) as [-> _].
  - intros image_paths features paths. rewrite process_batch_model.
    destruct (worker_model env) as [[vit|]|e]; intros [= <- <-].
    + intros [Hidx _]%list_elem_of_filter.
      by destruct (undersized_not_indexed env vit path size) as [_ []].
    + apply not_elem_of_nil.
  - intros choices file final_paths.
    destruct (saved_main env choices)
      as [->|(tf & vit & ff & _ & _ & _ & _ & ->)].
    { by intros ?%elem_of_nil. }
    intros Hin. apply elem_of_cons in Hin as [[=]|Hin].
    apply list_elem_of_singleton in Hin as [= _ ->].
    intros [Hidx _]%list_elem_of_filter.
    by destruct (undersized_not_indexed env vit path size) as [_ []].
Qed.

(** C5. Missing weight file: without the weight archive every call of
    [process_batch] returns two empty lists. The run then returns
    normally, calls [np.save] not at all and leaves the files on disk as
    they were; when a source folder with images was found, it ends with
    the total-failure line after the dispatch. *)
Theorem missing_weights_total_failure env choices :
  os_path_exists env weight_file = false →
  (∀ image_paths, process_batch env image_paths = Ok ([], []))
  ∧ (main env choices).2 = Ok tt
  ∧ saved (main env choices).1 = []
  ∧ (∀ files, files_after (main env choices).1 files = files)
  ∧ (∀ target_folder,
       selected_folder env = Some target_folder →
       discover env target_folder ≠ [] →
       main env choices
       = (banner target_folder ++ dispatch_events env target_folder
          ++ [Print MsgSaving; Print MsgFailure], Ok tt)).
Proof.
  intros Habsent.
  assert (worker_model env = Ok None) as Hmodel.
  { unfold worker_model. by rewrite Habsent. }
  assert (saved (main env choices).1 = []) as Hsaved.
  { destruct (saved_main env choices) as [|(? & ? & ? & _ & ? & _)];
      [done|congruence]. }
  split_and!.
  - intros image_paths. by rewrite process_batch_model, Hmodel.
  - destruct (main_spec env choices); try done; congruence.
  - done.
  - intros files. by apply files_after_unsaved.
  - intros target_folder Hsel Hne.
    destruct (main_spec env choices); simplify_eq; congruence.
Qed.

(** C7. Global emptiness: once a source folder with images is selected
    and the workers return, a run in which no image yields a feature
    prints the failure line, returns normally and calls [np.save] not at
    all. A run with N > 0 features saves the N x D matrix whose data is the
    concatenation of the per-chunk features in order, then the N paths,
    and returns normally. *)
Theorem global_emptiness env choices target_folder D :
  model_contract env D →
  selected_folder env = Some target_folder →
  discover env target_folder ≠ [] →
  (worker_model env = Ok None →
     main env choices
     = (banner target_folder ++ dispatch_events env target_folder
        ++ [Print MsgSaving; Print MsgFailure], Ok tt))
  ∧ (∀ vit, worker_model env = Ok (Some vit) →
       length (omap (feature_of env vit) (discover env target_folder))
       = length (filter (indexed env vit) (discover env target_folder))
       ∧ omap (feature_of env vit) (discover env target_folder)
         = mjoin (omap (feature_of env vit)
                    <$> make_chunks (discover env target_folder) 100)
       ∧ (omap (feature_of env vit) (discover env target_folder) = [] →
            main env choices
            = (banner target_folder ++ dispatch_events env target_folder
               ++ [Print MsgSaving; Print MsgFailure], Ok tt)
            ∧ saved (main env choices).1 = [])
       ∧ (omap (feature_of env vit) (discover env target_folder) ≠ [] →
            main env choices
            = (banner target_folder ++ dispatch_events env target_folder
               ++ success_events env target_folder
                    (NdArray
                       [length (filter (indexed env vit)
                                  (discover env target_folder)); D]
                       (mjoin (data <$> omap (feature_of env vit)
                                          (discover env target_folder))))
                    (filter (indexed env vit) (discover env target_folder)),
               Ok tt))).
Proof.
  intros Hcontract Hsel Hne. split.
  { intros Hmodel. destruct (main_spec env choices); simplify_eq; congruence. }
  intros vit Hmodel.
  pose proof (length_omap_feature env vit (discover env target_folder)) as Hlen.
  pose proof (features_one_row env D vit (discover env target_folder)
                Hcontract Hmodel) as Hrows.
  split_and!.
  - done.
  - by rewrite omap_mjoin, mjoin_make_chunks by lia.
  - intros Hnone.
    assert (main env choices
            = (banner target_folder ++ dispatch_events env target_folder
               ++ [Print MsgSaving; Print MsgFailure], Ok tt)) as ->.
    { destruct (main_spec env choices); simplify_eq; congruence. }
    split; [done|]. by read_events.
  - intros Hsome.
    pose proof (np_concatenate_one_row D _ Hrows Hsome) as Hcat.
    rewrite Hlen in Hcat.
    destruct (main_spec env choices)
      as [| | |tf worker ? ? Hworker Hnothing| |tf vit' ff ? Hmodel' ? Hcat'];
      simplify_eq; try congruence.
    + destruct Hsome. apply Hnothing. congruence.
    + assert (vit' = vit) as -> by congruence.
      rewrite Hcat in Hcat'. by injection Hcat' as <-.
Qed.

(** C1. Alignment invariant: [process_batch] returns two lists of equal
    length, the i-th feature being the one computed from the i-th path,
    unless loading the model raised. Under the call contract of the model
    (one row of [D] scalars per image), a run saves either nothing or the
    feature matrix together with the path array: the matrix has one row
    per path, and row [i] holds the feature of path [i]. *)
Theorem alignment_invariant env choices D :
  model_contract env D →
  (∀ image_paths,
     match process_batch env image_paths with
     | Ok (features, paths) => length features = length paths
     | Raise e => worker_model env = Raise e
     end)
  ∧ (∀ image_paths vit,
       worker_model env = Ok (Some vit) →
       ∃ features paths,
         process_batch env image_paths = Ok (features, paths)
         ∧ Forall2 (λ feature path,
              image_feature env vit path = Ok (Some feature)) features paths)
  ∧ (saved (main env choices).1 = []
     ∨ ∃ vit final_features final_paths,
         worker_model env = Ok (Some vit)
         ∧ saved (main env choices).1
           = [(features_file, NpyNumeric final_features);
              (paths_file, NpyStrings final_paths)]
         ∧ shape final_features = [length final_paths; D]
         ∧ ndarray_wf final_features
         ∧ nrows final_features = length final_paths
         ∧ ∀ i path, final_paths !! i = Some path →
             ∃ feature, image_feature env vit path = Ok (Some feature)
                        ∧ row final_features i = data feature).
Proof.
  intros Hcontract. split_and!.
  - intros image_paths. rewrite process_batch_model.
    destruct (worker_model env) as [[vit|]|e]; [|done..].
    apply length_omap_feature.
  - intros image_paths vit Hmodel. rewrite process_batch_model, Hmodel.
    eexists _, _. split; [done|]. apply omap_feature_Forall2.
  - destruct (saved_main env choices)
      as [?|(tf & vit & ff & Hsel & Hmodel & Hsome & Hcat & Hsaved)];
      [by left|right].
    pose proof (features_one_row env D vit (discover env tf) Hcontract Hmodel)
      as Hrows.
    pose proof (length_omap_feature env vit (discover env tf)) as Hlen.
    rewrite (np_concatenate_one_row D _ Hrows Hsome) in Hcat.
    injection Hcat as <-.
    eexists vit, _, _. split_and!; [done|done|..].
    + simpl. by rewrite Hlen.
    + unfold ndarray_wf. simpl.
      rewrite Nat.mul_1_r. clear Hsome Hsaved Hlen.
      induction Hrows as [|f fs [_ Hf] _ IH]; [done|].
      rewrite fmap_cons.
      change (mjoin (data f :: (data <$> fs))) with (data f ++ mjoin (data <$> fs)).
      rewrite length_app, IH, Hf. simpl. lia.
    + simpl. by rewrite Hlen.
    + intros i path Hi.
      apply omap_feature_lookup in Hi as (feature & Hfeat & Hi).
      exists feature. split; [by apply feature_of_Some|].
      by apply row_concatenated.
Qed.

(** C9. Re-run determinism of content: two runs on the same inputs do the
    same whatever the order in which their chunks complete; in particular
    the indexes they write hold the same (feature row, path) pairs. *)
Theorem rerun_same_content env choices1 choices2 :
  main env choices1 = main env choices2
  ∧ index_pairs (main env choices1).1 ≡ₚ index_pairs (main env choices2).1
  ∧ (∀ pair, pair ∈ index_pairs (main env choices1).1
             ↔ pair ∈ index_pairs (main env choices2).1)
  ∧ (∀ files, files_after (main env choices1).1 files
              = files_after (main env choices2).1 files).
Proof. by rewrite (main_schedule_free env choices1 choices2). Qed.

(** C10. Ordering: the path array that a run saves is the sorted
    discovered list with the paths that yield no feature struck out, in
    that order, because [imap] hands over the chunk results in submission
    order whatever the completion order. *)
Theorem index_in_sorted_order env choices file final_paths :
  (file, NpyStrings final_paths) ∈ saved (main env choices).1 →
  ∃ target_folder vit,
    selected_folder env = Some target_folder
    ∧ worker_model env = Ok (Some vit)
    ∧ pool_imap choices (process_batch env)
        (make_chunks (discover env target_folder) 100)
      = process_batch env <$> make_chunks (discover env target_folder) 100
    ∧ final_paths = filter (indexed env vit) (discover env target_folder)
    ∧ Sorted String.le (discover env target_folder)
    ∧ discover env target_folder
      ≡ₚ glob env (os_path_join target_folder "*.jpg")
         ++ glob env (os_path_join target_folder "*.png")
    ∧ StronglySorted String.le final_paths.
Proof.
  destruct (saved_main env choices)
    as [->|(tf & vit & ff & Hsel & Hmodel & _ & _ & ->)].
  { by intros ?%elem_of_nil. }
  intros Hin. apply elem_of_cons in Hin as [[=]|Hin].
  apply list_elem_of_singleton in Hin as [= _ ->].
  destruct (sorted_discover env tf) as [Hsorted Hperm].
  exists tf, vit. split_and!; [done|done|apply pool_imap_ordered|done..|].
  apply StronglySorted_filter. by apply (Sorted_StronglySorted _).
Qed.
End claims.

Lemma missing_source_aborts_witness :
  main empty_env [1; 0] = ([Print MsgNoSourceFolder; Print MsgNoSourceAdvice], Ok tt)
  ∧ dispatched (main empty_env [1; 0]).1 = []
  ∧ saved (main empty_env [1; 0]).1 = []
  ∧ files_after (main empty_env [1; 0]).1 ∅ = ∅.
Proof. apply (missing_source_aborts empty_env [1; 0] ∅); reflexivity. Defined.

Lemma source_folder_priority_witness :
  scanned (build_index_fast gallery_env [2; 0]).1 = ["gallery"]
  ∧ scanned (build_index_fast demo_env []).1 = ["demo_data"].
Proof.
  split.
  - apply (source_folder_priority gallery_env [2; 0]). reflexivity.
  - apply (source_folder_priority demo_env []). split; reflexivity.
Defined.

Lemma chunk_partition_witness :
  dispatched (main gallery_env [2; 0; 1]).1
  = [(4, make_chunks (discover gallery_env "gallery") 100)]
  ∧ length <$> make_chunks (discover gallery_env "gallery") 100 = [100; 100; 50].
Proof.
  assert (selected_folder gallery_env = Some "gallery") as Hsel by reflexivity.
  assert (discover gallery_env "gallery" ≠ []) as Hne by (by vm_compute).
  pose proof (chunk_partition gallery_env [2; 0; 1] "gallery" Hsel Hne)
    as (_ & Hdispatched & _ & _ & Hsizes).
  split; [exact Hdispatched|]. apply Hsizes. by vm_compute.
Defined.

(** The stand-in model keeps the call contract with [D = 2]. *)
Lemma demo_model_contract : model_contract demo_env 2.
Proof.
  intros vit input_tensor feature Hmodel Hcall.
  vm_compute in Hmodel. injection Hmodel as <-.
  unfold demo_vit in Hcall. injection Hcall as <-. by split.
Qed.

Lemma saved_demo_run :
  saved (main demo_env [3; 1]).1
  = [(features_file, NpyNumeric (NdArray [2; 2] [17%Z; 7%Z; 16%Z; 7%Z]));
     (paths_file, NpyStrings ["demo_data/cat.jpg"; "demo_data/kb.png"])].
Proof. by vm_compute. Qed.

Lemma alignment_invariant_witness :
  model_contract demo_env 2
  ∧ ∃ final_features final_paths,
      saved (main demo_env [3; 1]).1
      = [(features_file, NpyNumeric final_features);
         (paths_file, NpyStrings final_paths)]
      ∧ nrows final_features = length final_paths.
Proof.
  split; [apply demo_model_contract|].
  destruct (alignment_invariant demo_env [3; 1] 2 demo_model_contract)
    as (_ & _ & [Hnone|(vit & ff & fp & _ & Hsaved & _ & _ & Hrows & _)]).
  - rewrite saved_demo_run in Hnone. discriminate Hnone.
  - exists ff, fp. split; [exact Hsaved|exact Hrows].
Defined.

Lemma undersized_files_skipped_witness :
  os_path_getsize demo_env "demo_data/stub.jpg" = Ok 500%Z
  ∧ (500 < 1024)%Z
  ∧ ∀ choices file final_paths,
      (file, NpyStrings final_paths) ∈ saved (main demo_env choices).1 →
      "demo_data/stub.jpg" ∉ final_paths.
Proof.
  split; [reflexivity|]. split; [lia|].
  apply (undersized_files_skipped demo_env "demo_data/stub.jpg" 500);
    [reflexivity|lia].
Defined.

Lemma missing_weights_total_failure_witness :
  os_path_exists no_weights_env weight_file = false
  ∧ (∀ image_paths, process_batch no_weights_env image_paths = Ok ([], []))
  ∧ (main no_weights_env [1; 1]).2 = Ok tt
  ∧ saved (main no_weights_env [1; 1]).1 = [].
Proof.
  split; [reflexivity|].
  destruct (missing_weights_total_failure no_weights_env [1; 1])
    as (Hbatch & Hret & Hsaved & _); [reflexivity|].
  split; [exact Hbatch|]. split; [exact Hret|exact Hsaved].
Defined.

Lemma per_image_errors_absorbed_witness :
  process_image demo_env demo_vit ([], []) "demo_data/broken.png" = ([], [])
  ∧ process_image demo_env demo_vit ([], []) "demo_data/vanished.png" = ([], []).
Proof.
  destruct (per_image_errors_absorbed demo_env demo_vit)
    as (_ & Hgetsize & Hresize & _).
  split.
  - apply (Hresize _ _ 2048%Z KeyboardInterrupt); reflexivity.
  - apply (Hgetsize _ _ Exception). reflexivity.
Defined.

Lemma global_emptiness_witness :
  model_contract demo_env 2
  ∧ selected_folder demo_env = Some "demo_data"
  ∧ discover demo_env "demo_data" ≠ []
  ∧ saved (main demo_env [0; 2]).1
    = [(features_file, NpyNumeric (NdArray [2; 2] [17%Z; 7%Z; 16%Z; 7%Z]));
       (paths_file, NpyStrings ["demo_data/cat.jpg"; "demo_data/kb.png"])].
Proof.
  assert (selected_folder demo_env = Some "demo_data") as Hsel by reflexivity.
  assert (discover demo_env "demo_data" ≠ []) as Hne by (by vm_compute).
  split; [apply demo_model_contract|]. split; [exact Hsel|]. split; [exact Hne|].
  destruct (global_emptiness demo_env [0; 2] "demo_data" 2
              demo_model_contract Hsel Hne) as [_ Hloaded].
  destruct (Hloaded demo_vit) as (_ & _ & _ & Hwritten); [reflexivity|].
  rewrite Hwritten by (by vm_compute). by vm_compute.
Defined.

Lemma rerun_same_content_witness :
  main demo_env [4; 0; 2] = main demo_env []
  ∧ index_pairs (main demo_env [4; 0; 2]).1
    = [([17%Z; 7%Z], "demo_data/cat.jpg"); ([16%Z; 7%Z], "demo_data/kb.png")].
Proof.
  split; [apply (rerun_same_content demo_env [4; 0; 2] [])|]. by vm_compute.
Defined.

Lemma index_in_sorted_order_witness :
  (paths_file, NpyStrings ["demo_data/cat.jpg"; "demo_data/kb.png"])
    ∈ saved (main demo_env [3; 1]).1
  ∧ StronglySorted String.le ["demo_data/cat.jpg"; "demo_data/kb.png"].
Proof.
  assert ((paths_file, NpyStrings ["demo_data/cat.jpg"; "demo_data/kb.png"])
            ∈ saved (main demo_env [3; 1]).1) as Hin.
  { rewrite saved_demo_run. apply list_elem_of_further, list_elem_of_here. }
  split; [exact Hin|].
  destruct (index_in_sorted_order demo_env [3; 1] _ _ Hin)
    as (tf & vit & _ & _ & _ & _ & _ & _ & Hsorted).
  exact Hsorted.
Defined.

(** The call contract cannot be dropped: on bare vectors
    [np.concatenate] glues the features end to end, and the saved array has
    four entries along its first axis for two paths. *)
Remark flat_features_lose_the_rows :
  saved (main flat_env []).1
  = [(features_file, NpyNumeric (NdArray [4] [17%Z; 7%Z; 16%Z; 7%Z]));
     (paths_file, NpyStrings ["demo_data/cat.jpg"; "demo_data/kb.png"])].
Proof. by vm_compute. Qed.

(** * Further properties of the script *)
Section further.
Context {scalar tensor weights : Type}.
Implicit Types (env : environment scalar tensor weights)
  (choices : list nat) (target_folder path : string)
  (image_paths : list string) (vit : model scalar tensor)
  (files : gmap string (npy scalar)) (tr : list (event scalar)).

(** X1. A selected folder without images ends the run after the scan
    (lines 79-81): the run prints that no image was found and returns
    normally, without starting the pool or saving anything. An empty
    [gallery] is therefore not replaced by [demo_data]. *)
Theorem empty_folder_stops env choices target_folder :
  selected_folder env = Some target_folder →
  discover env target_folder = [] →
  main env choices
  = (banner target_folder
     ++ [Print (MsgScanning target_folder); Print (MsgNoImages target_folder)],
     Ok tt)
  ∧ scanned (main env choices).1 = [target_folder]
  ∧ dispatched (main env choices).1 = []
  ∧ saved (main env choices).1 = [].
Proof.
  intros Hsel Hnone.
  assert (main env choices
          = (banner target_folder
             ++ [Print (MsgScanning target_folder);
                 Print (MsgNoImages target_folder)], Ok tt)) as ->.
  { destruct (main_spec env choices); simplify_eq; try done;
      by rewrite Hnone in *. }
  split; [done|]. split_and!; by read_events.
Qed.

(** X2. A weight archive that exists but fails to load (lines 19-20) stops
    the run with an exception once images are dispatched: the exception
    passes the handler of the top-level invocation, the saving step is not
    reached and nothing is saved. *)
Theorem model_load_failure_escapes env choices target_folder e :
  worker_model env = Raise e →
  selected_folder env = Some target_folder →
  discover env target_folder ≠ [] →
  os_path_exists env weight_file = true
  ∧ (∀ image_paths, process_batch env image_paths = Raise Exception)
  ∧ main env choices
    = (banner target_folder ++ dispatch_events env target_folder,
       Raise Exception)
  ∧ saved (main env choices).1 = [].
Proof.
  intros Hmodel Hsel Hne.
  pose proof (worker_model_raise env e Hmodel) as ->.
  assert (main env choices
          = (banner target_folder ++ dispatch_events env target_folder,
             Raise Exception)) as ->.
  { destruct (main_spec env choices); simplify_eq; congruence. }
  split_and!.
  - unfold worker_model in Hmodel.
    by destruct (os_path_exists env weight_file).
  - intros image_paths. by rewrite process_batch_model, Hmodel.
  - done.
  - by read_events.
Qed.


(** X4. Features that [np.concatenate] cannot stack (line 108) end the run
    with an exception after the saving step was announced; neither file is
    written. *)
Theorem concatenate_failure env choices target_folder vit e :
  selected_folder env = Some target_folder →
  worker_model env = Ok (Some vit) →
  omap (feature_of env vit) (discover env target_folder) ≠ [] →
  np_concatenate (omap (feature_of env vit) (discover env target_folder))
    = Raise e →
  main env choices
  = (banner target_folder ++ dispatch_events env target_folder
     ++ [Print MsgSaving], Raise Exception)
  ∧ saved (main env choices).1 = [].
Proof.
  intros Hsel Hmodel Hsome Hcat.
  assert (main env choices
          = (banner target_folder ++ dispatch_events env target_folder
             ++ [Print MsgSaving], Raise Exception)) as ->.
  { destruct (main_spec env choices)
      as [| | |tf worker ? ? Hworker Hnothing| |];
      simplify_eq; try congruence.
    - match goal with H : discover _ _ = [] |- _ => by rewrite H in Hsome end.
    - destruct Hsome. apply Hnothing. congruence. }
  split; [done|]. by read_events.
Qed.

(** X5. What a worker returns with a loaded model (lines 22-44): the
    paths are the given paths, in the given order and with their
    repetitions, that pass all three steps; a path passes exactly when its
    size is known and at least 1024 bytes, the preprocessing returns a
    tensor and the model returns a feature for it. A file of exactly 1024
    bytes is not skipped by the size check. *)
Theorem process_batch_selects env vit image_paths :
  worker_model env = Ok (Some vit) →
  process_batch env image_paths
  = Ok (omap (feature_of env vit) image_paths,
        filter (indexed env vit) image_paths)
  ∧ (∀ path,
       path ∈ filter (indexed env vit) image_paths
       ↔ path ∈ image_paths
         ∧ ∃ size input_tensor feature,
             os_path_getsize env path = Ok size ∧ (1024 ≤ size)%Z
             ∧ resize_short_side env path = Ok input_tensor
             ∧ vit input_tensor = Ok feature).
Proof.
  intros Hmodel. split; [by rewrite process_batch_model, Hmodel|].
  intros path. rewrite list_elem_of_filter. unfold indexed, is_Some.
  setoid_rewrite feature_of_Some. setoid_rewrite image_feature_Some.
  naive_solver.
Qed.

(** X6. Cutting the work into chunks does not change the result (lines
    88 and 100-103): for a non-empty list and any positive batch size,
    collecting what the pool yields for the chunks gives what one call of
    [process_batch] on the whole list gives, under every schedule. *)
Theorem chunking_is_transparent env choices image_paths batch_size :
  0 < batch_size → image_paths ≠ [] →
  collect (pool_imap choices (process_batch env)
             (make_chunks image_paths batch_size)) ([], [])
  = process_batch env image_paths.
Proof.
  intros Hbs Hne. rewrite pool_imap_ordered.
  assert (make_chunks image_paths batch_size ≠ []) as Hchunks
    by (by apply make_chunks_nonempty).
  pose proof (mjoin_make_chunks image_paths batch_size Hbs) as Hjoin.
  rewrite (process_batch_model env image_paths).
  revert Hchunks Hjoin. generalize (make_chunks image_paths batch_size).
  intros chunks Hchunks Hjoin.
  destruct (worker_model env) as [[vit|]|e] eqn:Hmodel.
  - rewrite (list_fmap_ext _
      (Ok ∘ (λ c, (omap (feature_of env vit) c, filter (indexed env vit) c))) chunks)
      by (intros _ c _; by rewrite process_batch_model, Hmodel).
    rewrite list_fmap_compose, collect_ok.
    + simpl. rewrite <-!list_fmap_compose.
      rewrite (list_fmap_ext _ (omap (feature_of env vit)) chunks) by done.
      rewrite (list_fmap_ext _ (filter (indexed env vit)) chunks) by done.
      by rewrite omap_mjoin, filter_mjoin, Hjoin.
    + apply Forall_fmap, Forall_forall. intros c _. apply length_omap_feature.
  - rewrite (list_fmap_ext _ (λ _, Ok ([], [])) chunks)
      by (intros _ c _; by rewrite process_batch_model, Hmodel).
    clear Hjoin Hchunks. induction chunks as [|c chunks IH]; [done|].
    rewrite fmap_cons. cbn [collect].
    by rewrite bool_decide_eq_false_2 by (simpl; lia).
  - rewrite (list_fmap_ext _ (λ _, Raise e) chunks)
      by (intros _ c _; by rewrite process_batch_model, Hmodel).
    by apply collect_raise.
Qed.

(** X7. [process_batch] works path by path: on two lists put end to end
    it returns the features and the paths of the first followed by those
    of the second, and it raises exactly when it raises on either. *)
Theorem process_batch_app env image_paths1 image_paths2 :
  process_batch env (image_paths1 ++ image_paths2)
  = match process_batch env image_paths1, process_batch env image_paths2 with
    | Ok (features1, paths1), Ok (features2, paths2) =>
        Ok (features1 ++ features2, paths1 ++ paths2)
    | Raise e, _ => Raise e
    | _, Raise e => Raise e
    end.
Proof.
  rewrite !process_batch_model.
  destruct (worker_model env) as [[vit|]|e]; [|done..].
  by rewrite omap_app, filter_app.
Qed.

(** X8. The discovered list (line 76) does not depend on the order in
    which the file system lists the folder: two machines on which the two
    patterns match the same files, listed in any order, discover the same
    list. *)
Theorem discover_order_independent env1 env2 target_folder :
  glob env1 (os_path_join target_folder "*.jpg")
    ++ glob env1 (os_path_join target_folder "*.png")
  ≡ₚ glob env2 (os_path_join target_folder "*.jpg")
     ++ glob env2 (os_path_join target_folder "*.png") →
  discover env1 target_folder = discover env2 target_folder.
Proof.
  intros Hperm.
  destruct (sorted_discover env1 target_folder) as [Hs1 Hp1].
  destruct (sorted_discover env2 target_folder) as [Hs2 Hp2].
  apply (Sorted_unique String.le); [done..|].
  by rewrite Hp1, Hp2.
Qed.
Lemma printed_banner target_folder :
  printed (banner (scalar:=scalar) target_folder)
  = [MsgRule "=" 50; MsgGalleryFound; MsgFullMode; MsgFullHint; MsgRule "=" 50]
  ∨ printed (banner (scalar:=scalar) target_folder)
    = [MsgRule "=" 50; MsgDemoFound; MsgDemoMode; MsgDemoHint; MsgRule "=" 50].
Proof. unfold banner. case_bool_decide; [by left|by right]. Qed.

Lemma printed_dispatch_events env target_folder :
  printed (dispatch_events env target_folder)
  = [MsgScanning target_folder;
     MsgFound (length (discover env target_folder)); MsgPoolStarted 4].
Proof. done. Qed.

Lemma printed_success_events env target_folder final_features final_paths :
  printed (success_events env target_folder final_features final_paths)
  = [MsgSaving; MsgRule "-" 30; MsgIndexBuilt; MsgSource target_folder;
     MsgProcessed (length final_paths) (length (discover env target_folder));
     MsgShape (shape final_features); MsgRule "-" 30].
Proof. done. Qed.

(** Membership of a console line in the lines of one of the six ways. *)
Ltac read_printed :=
  cbn [fst snd];
  rewrite ?printed_app, ?printed_dispatch_events, ?printed_success_events;
  repeat match goal with
         | |- context [printed (banner ?tf)] =>
             destruct (printed_banner tf) as [-> | ->]
         end;
  simpl; rewrite ?elem_of_app, ?elem_of_cons, ?elem_of_nil.

(** X9. The success line (line 116) is printed exactly in the runs that
    saved both files, and the failure line (line 122) only in runs that
    saved nothing and returned normally. *)
Theorem success_line_means_saved env choices :
  (MsgIndexBuilt ∈ printed (main env choices).1
   ↔ ∃ final_features final_paths,
       saved (main env choices).1
       = [(features_file, NpyNumeric final_features);
          (paths_file, NpyStrings final_paths)])
  ∧ (MsgFailure ∈ printed (main env choices).1 →
     saved (main env choices).1 = [] ∧ (main env choices).2 = Ok tt).
Proof.
  destruct (main_spec env choices); split;
    try (split; [read_printed; naive_solver|by read_events]);
    try (read_printed; read_events; naive_solver).
  all: read_events; split; [|by eauto]; read_printed; naive_solver.
Qed.

(** The files on disk after a run depend on its [np.save] calls only. *)
Lemma files_after_saved tr files :
  files_after tr files
  = foldl (λ fs '(file, contents), <[file:=contents]> fs) files (saved tr).
Proof.
  revert files. induction tr as [|e tr IH]; intros files; [done|].
  destruct e; simpl; by rewrite IH.
Qed.

(** X10. A run replaces the two index files or touches nothing: the files
    on disk afterwards are the files before with at most
    [index_features.npy] and [index_paths.npy] rewritten, every other file
    is as it was, and running again on the same inputs, under any
    schedule, leaves the disk as the first run left it. *)
Theorem rerun_replaces_index env choices1 choices2 files :
  (files_after (main env choices1).1 files = files
   ∨ ∃ final_features final_paths,
       files_after (main env choices1).1 files
       = <[paths_file := NpyStrings final_paths]>
           (<[features_file := NpyNumeric final_features]> files))
  ∧ (∀ file, file ≠ features_file → file ≠ paths_file →
       files_after (main env choices1).1 files !! file = files !! file)
  ∧ files_after (main env choices2).1 (files_after (main env choices1).1 files)
    = files_after (main env choices1).1 files.
Proof.
  rewrite (main_schedule_free env choices2 choices1), !files_after_saved.
  destruct (saved_main env choices1)
    as [->|(tf & vit & ff & _ & _ & _ & _ & ->)]; simpl.
  { split_and!; [by left|done..]. }
  split_and!.
  - right. by eexists _, _.
  - intros file Hf Hp. by rewrite !lookup_insert_ne.
  - apply map_eq. intros file. rewrite !lookup_insert.
    by repeat case_decide.
Qed.

(** X11. The summary line (line 118) reports the length of the saved path
    array against the number of discovered images, and the first is at
    least one and at most the second. *)
Theorem summary_counts env choices processed total_imgs :
  MsgProcessed processed total_imgs ∈ printed (main env choices).1 →
  0 < processed ≤ total_imgs
  ∧ ∃ target_folder final_features final_paths,
      selected_folder env = Some target_folder
      ∧ total_imgs = length (discover env target_folder)
      ∧ saved (main env choices).1
        = [(features_file, NpyNumeric final_features);
           (paths_file, NpyStrings final_paths)]
      ∧ processed = length final_paths.
Proof.
  destruct (main_spec env choices) as [| | | | |tf vit ff ? ? Hsome ?];
    try (read_printed; naive_solver).
  pose proof (length_omap_feature env vit (discover env tf)) as Hlen.
  pose proof (length_filter (indexed env vit) (discover env tf)) as Hle.
  assert (0 < length (omap (feature_of env vit) (discover env tf))) as Hpos.
  { destruct (omap (feature_of env vit) (discover env tf)); [done|simpl; lia]. }
  assert (saved (banner tf ++ dispatch_events env tf
                 ++ success_events env tf ff
                      (filter (indexed env vit) (discover env tf)))
          = [(features_file, NpyNumeric ff);
             (paths_file,
              NpyStrings (filter (indexed env vit) (discover env tf)))])
    as Hsaved by (by read_events).
  cbn [fst snd]. rewrite Hsaved. clear Hsaved.
  read_printed; intros Hin;
    (assert (processed = length (filter (indexed env vit) (discover env tf))
             ∧ total_imgs = length (discover env tf)) as [-> ->]
       by naive_solver);
    (split; [lia|]);
    exists tf, ff, (filter (indexed env vit) (discover env tf)); done.
Qed.
(** X13. An image that fails any of the three steps does not disturb its
    neighbours (lines 25-42): with a loaded model, a chunk with such a path
    anywhere in it gives the same features and paths as the chunk without
    it. *)
Theorem failed_image_is_transparent env vit image_paths1 path image_paths2 :
  worker_model env = Ok (Some vit) →
  (∀ feature, image_feature env vit path ≠ Ok (Some feature)) →
  process_batch env (image_paths1 ++ path :: image_paths2)
  = process_batch env (image_paths1 ++ image_paths2).
Proof.
  intros Hmodel Hfail.
  assert (feature_of env vit path = None) as Hnone.
  { destruct (feature_of env vit path) as [feature|] eqn:Hf; [|done].
    apply feature_of_Some in Hf. by destruct (Hfail feature). }
  rewrite !process_batch_model, Hmodel, !omap_app, !filter_app.
  cbn [omap list_omap]. rewrite Hnone.
  rewrite filter_cons_False; [done|].
  unfold indexed. rewrite Hnone. by intros [? ?].
Qed.
End further.

(** ** Chunking in general *)
Section chunks_further.
Context {A : Type}.
Implicit Types (l : list A) (batch_size : nat).

(** X12. Edge cases of the chunking (line 88) for any positive batch
    size: no paths give no chunk, up to [batch_size] paths give the single
    chunk of all of them, and a multiple of [batch_size] gives full chunks
    only, with no empty chunk at the end. *)
Theorem make_chunks_edges l batch_size :
  0 < batch_size →
  make_chunks ([] : list A) batch_size = []
  ∧ (0 < length l ≤ batch_size → make_chunks l batch_size = [l])
  ∧ (∀ m, length l = m * batch_size →
          length <$> make_chunks l batch_size = replicate m batch_size)
  ∧ Forall (λ chunk, 0 < length chunk ≤ batch_size) (make_chunks l batch_size).
Proof.
  intros Hbs. split_and!.
  - rewrite make_chunks_eq. simpl.
    by rewrite Nat.div_small by lia.
  - intros [Hpos Hle]. rewrite make_chunks_eq.
    assert ((length l + batch_size - 1) `div` batch_size = 1) as ->.
    { symmetry. apply (Nat.div_unique _ _ _ (length l - 1)); lia. }
    simpl. by rewrite drop_0, take_ge by lia.
  - intros m Hm. rewrite make_chunks_lengths, Hm.
    assert ((m * batch_size + batch_size - 1) `div` batch_size = m) as ->.
    { symmetry. apply (Nat.div_unique _ _ _ (batch_size - 1)); lia. }
    apply list_eq. intros k. rewrite list_lookup_fmap.
    destruct (decide (k < m)) as [Hk|Hk].
    + rewrite lookup_seq_lt, lookup_replicate_2 by done. simpl.
      f_equal. nia.
    + rewrite lookup_seq_ge by lia. symmetry. apply lookup_replicate_None. lia.
  - apply Forall_forall. intros chunk Hin.
    apply list_elem_of_lookup in Hin as [k Hk].
    apply make_chunks_lookup in Hk as [-> Hk].
    apply chunk_count_spec in Hk; [|done].
    rewrite length_take, length_drop. lia.
Qed.
End chunks_further.


Lemma empty_folder_stops_witness :
  selected_folder empty_gallery_env = Some "gallery"
  ∧ discover empty_gallery_env "gallery" = []
  ∧ discover empty_gallery_env "demo_data" ≠ []
  ∧ scanned (main empty_gallery_env [0]).1 = ["gallery"]
  ∧ saved (main empty_gallery_env [0]).1 = [].
Proof.
  assert (selected_folder empty_gallery_env = Some "gallery") as Hsel
    by reflexivity.
  assert (discover empty_gallery_env "gallery" = []) as Hnone by reflexivity.
  destruct (empty_folder_stops empty_gallery_env [0] "gallery" Hsel Hnone)
    as (_ & Hscanned & _ & Hsaved).
  split; [exact Hsel|]. split; [exact Hnone|]. split; [by vm_compute|].
  split; [exact Hscanned|exact Hsaved].
Defined.

Lemma model_load_failure_escapes_witness :
  worker_model corrupt_weights_env = Raise Exception
  ∧ (main corrupt_weights_env [1]).2 = Raise Exception
  ∧ saved (main corrupt_weights_env [1]).1 = [].
Proof.
  assert (worker_model corrupt_weights_env = Raise Exception) as Hmodel
    by reflexivity.
  assert (selected_folder corrupt_weights_env = Some "demo_data") as Hsel
    by reflexivity.
  assert (discover corrupt_weights_env "demo_data" ≠ []) as Hne
    by (by vm_compute).
  destruct (model_load_failure_escapes corrupt_weights_env [1] "demo_data"
              Exception Hmodel Hsel Hne) as (_ & _ & Hmain & Hsaved).
  split; [exact Hmodel|]. split; [by rewrite Hmain|exact Hsaved].
Defined.


Lemma concatenate_failure_witness :
  worker_model ragged_env = Ok (Some ragged_vit)
  ∧ (main ragged_env [2]).2 = Raise Exception
  ∧ saved (main ragged_env [2]).1 = [].
Proof.
  assert (selected_folder ragged_env = Some "demo_data") as Hsel by reflexivity.
  assert (worker_model ragged_env = Ok (Some ragged_vit)) as Hmodel
    by reflexivity.
  assert (omap (feature_of ragged_env ragged_vit)
            (discover ragged_env "demo_data") ≠ []) as Hsome
    by (by vm_compute).
  assert (np_concatenate (omap (feature_of ragged_env ragged_vit)
                            (discover ragged_env "demo_data"))
          = Raise Exception) as Hcat by (by vm_compute).
  destruct (concatenate_failure ragged_env [2] "demo_data" ragged_vit
              Exception Hsel Hmodel Hsome Hcat) as [Hmain Hsaved].
  split; [exact Hmodel|]. split; [by rewrite Hmain|exact Hsaved].
Defined.

Lemma process_batch_selects_witness :
  worker_model demo_env = Ok (Some demo_vit)
  ∧ "demo_data/kb.png"
    ∈ filter (indexed demo_env demo_vit)
        ["demo_data/stub.jpg"; "demo_data/kb.png"; "demo_data/kb.png"].
Proof.
  assert (worker_model demo_env = Ok (Some demo_vit)) as Hmodel by reflexivity.
  split; [exact Hmodel|].
  apply (process_batch_selects demo_env demo_vit _ Hmodel).
  split; [apply list_elem_of_further, list_elem_of_here|].
  exists 1024%Z, "demo_data/kb.png",
    (NdArray [1; 2] [Z.of_nat (String.length "demo_data/kb.png"); 7%Z]).
  split; [reflexivity|]. split; [lia|]. split; reflexivity.
Defined.

Lemma chunking_is_transparent_witness :
  collect (pool_imap [1; 1] (process_batch demo_env)
             (make_chunks (discover demo_env "demo_data") 2)) ([], [])
  = process_batch demo_env (discover demo_env "demo_data").
Proof.
  apply (chunking_is_transparent demo_env [1; 1]); [lia|by vm_compute].
Defined.

Lemma discover_order_independent_witness :
  glob demo_env "demo_data/*.jpg" ≠ glob shuffled_env "demo_data/*.jpg"
  ∧ discover demo_env "demo_data" = discover shuffled_env "demo_data".
Proof.
  split; [by vm_compute|].
  apply (discover_order_independent demo_env shuffled_env "demo_data").
  apply (bool_decide_unpack _). by vm_compute.
Defined.

Lemma summary_counts_witness :
  MsgProcessed 2 5 ∈ printed (main demo_env [3]).1 ∧ 0 < 2 ≤ 5.
Proof.
  assert (MsgProcessed 2 5 ∈ printed (main demo_env [3]).1) as Hin.
  { apply (bool_decide_unpack _). by vm_compute. }
  split; [exact Hin|].
  apply (summary_counts demo_env [3] 2 5 Hin).
Defined.

Lemma make_chunks_edges_witness :
  make_chunks [1; 2; 3] 100 = [[1; 2; 3]]
  ∧ length <$> make_chunks (seq 0 200) 100 = [100; 100].
Proof.
  split.
  - apply (make_chunks_edges [1; 2; 3] 100); simpl; lia.
  - destruct (make_chunks_edges (seq 0 200) 100) as (_ & _ & Hfull & _); [lia|].
    apply (Hfull 2). reflexivity.
Defined.

Lemma failed_image_is_transparent_witness :
  process_batch demo_env
    ["demo_data/cat.jpg"; "demo_data/broken.png"; "demo_data/kb.png"]
  = process_batch demo_env ["demo_data/cat.jpg"; "demo_data/kb.png"].
Proof.
  apply (failed_image_is_transparent demo_env demo_vit
           ["demo_data/cat.jpg"] "demo_data/broken.png" ["demo_data/kb.png"]).
  - reflexivity.
  - intros feature. by vm_compute.
Defined.
